(** * create-corpus.py: the bounded streaming dedup-filter-write loop

    A shallow embedding of [scripts/create-corpus.py] and the properties of
    its one routine, [write_streaming_dataset].

    Python values are modelled as follows.
    - A [str] is the list of its Unicode code points, so that [len] is
      [length] and differs from the UTF-8 byte length.
    - [bytes] is a list of integers in [0, 255].
    - Python integers are unbounded: [Z].
    - [seen_hashes], a Python [set] of hex digests, is a [gset str].
    - The file handle is the log of the arguments of its [write] calls.
    - A raised exception is [None] in the [option] monad; the shared objects
      ([seen_hashes] and the file) keep what was done to them before. *)

From Stdlib Require Import ZArith List String Ascii Lia.
From stdpp Require Import base option list gmap sets strings.

#[local] Set Warnings "-clear-no-such-hyp,-abstract-large-number".

Local Open Scope Z_scope.

(** ** Python strings *)

Module PyStr.

(** A code point, [ord(c)]. *)
Definition char := Z.
Definition str := list char.
Definition bytes := list Z.

Definition of_ascii (a : ascii) : char := Z.of_N (N_of_ascii a).

(** A literal of ASCII characters as a Python [str]. *)
Fixpoint lit (s : string) : str :=
  match s with
  | EmptyString => []
  | String a s' => of_ascii a :: lit s'
  end.

Definition LF : char := 10.
Definition CR : char := 13.

(** [len(s)] *)
Definition len (s : str) : Z := Z.of_nat (length s).

(** [c.isspace()], the code points CPython's [_PyUnicode_IsWhitespace]
    accepts; [str.strip()] without argument removes these. *)
Definition isspace (c : char) : bool :=
  ((9 <=? c) && (c <=? 13)) || ((28 <=? c) && (c <=? 32))
  || (c =? 133) || (c =? 160) || (c =? 5760)
  || ((8192 <=? c) && (c <=? 8202))
  || (c =? 8232) || (c =? 8233) || (c =? 8239) || (c =? 8287) || (c =? 12288).

(** [s.lstrip()] *)
Fixpoint lstrip (s : str) : str :=
  match s with
  | c :: s' => if isspace c then lstrip s' else s
  | [] => []
  end.

(** [s.rstrip()] *)
Fixpoint rstrip (s : str) : str :=
  match s with
  | [] => []
  | c :: s' =>
      match rstrip s' with
      | [] => if isspace c then [] else [c]
      | r => c :: r
      end
  end.

(** [s.strip()] *)
Definition strip (s : str) : str := rstrip (lstrip s).

(** [s.replace("\r\n", "\n")]: left to right, occurrences do not overlap. *)
Fixpoint replace_crlf (s : str) : str :=
  match s with
  | [] => []
  | c :: tl =>
      match tl with
      | d :: rest =>
          if (c =? CR) && (d =? LF) then LF :: replace_crlf rest
          else c :: replace_crlf tl
      | [] => [c]
      end
  end.

(** The UTF-8 encoding of one code point.  A surrogate (U+D800..U+DFFF)
    makes [str.encode] raise [UnicodeEncodeError]; values outside
    [0, 0x10FFFF] are no code points and are refused as well. *)
Definition encode_char (c : char) : option bytes :=
  if c <? 0 then None
  else if c <? 128 then Some [c]
  else if c <? 2048 then
    Some [Z.lor 192 (Z.shiftr c 6); Z.lor 128 (Z.land c 63)]
  else if (55296 <=? c) && (c <=? 57343) then None
  else if c <? 65536 then
    Some [Z.lor 224 (Z.shiftr c 12);
          Z.lor 128 (Z.land (Z.shiftr c 6) 63);
          Z.lor 128 (Z.land c 63)]
  else if c <? 1114112 then
    Some [Z.lor 240 (Z.shiftr c 18);
          Z.lor 128 (Z.land (Z.shiftr c 12) 63);
          Z.lor 128 (Z.land (Z.shiftr c 6) 63);
          Z.lor 128 (Z.land c 63)]
  else None.

(** [s.encode("utf-8")] *)
Fixpoint encode (s : str) : option bytes :=
  match s with
  | [] => Some []
  | c :: s' =>
      b ← encode_char c;
      bs ← encode s';
      Some (b ++ bs)
  end.

(** [str.lower()] on ASCII text.  Python's own [lower] follows the Unicode
    case tables of the interpreter; the development takes it as a parameter
    and uses this function, which agrees with it on ASCII text, to run
    examples. *)
Definition ascii_lower (s : str) : str :=
  map (fun c => if (65 <=? c) && (c <=? 90) then c + 32 else c) s.

End PyStr.

(** ** hashlib.sha1 *)

Module Sha1.

Import PyStr.

Definition w32 (x : Z) : Z := x mod 4294967296.

Definition rotl (n x : Z) : Z :=
  w32 (Z.lor (Z.shiftl x n) (Z.shiftr x (32 - n))).

(** Padding: a [0x80] byte, zeros up to 56 modulo 64, and the bit length of
    the message as a big-endian 64-bit integer. *)
Definition be_bytes (n : nat) (x : Z) : bytes :=
  map (fun i => Z.land (Z.shiftr x (8 * Z.of_nat i)) 255) (rev (seq 0 n)).

Definition pad (msg : bytes) : bytes :=
  let l := Z.of_nat (length msg) in
  let zeros := Z.to_nat ((55 - l) mod 64) in
  msg ++ [128] ++ repeat 0 zeros ++ be_bytes 8 (8 * l).

(** Big-endian 32-bit words of a byte string. *)
Fixpoint words (b : bytes) : list Z :=
  match b with
  | b0 :: b1 :: b2 :: b3 :: rest =>
      Z.lor (Z.shiftl b0 24) (Z.lor (Z.shiftl b1 16) (Z.lor (Z.shiftl b2 8) b3))
      :: words rest
  | _ => []
  end.

(** The message schedule: [win] holds the previous sixteen words. *)
Fixpoint expand (n : nat) (win : list Z) : list Z :=
  match n with
  | O => []
  | S n' =>
      let w := rotl 1 (Z.lxor (Z.lxor (nth 13 win 0) (nth 8 win 0))
                              (Z.lxor (nth 2 win 0) (nth 0 win 0))) in
      w :: expand n' (tl win ++ [w])
  end.

Definition schedule (block : list Z) : list Z := block ++ expand 64 block.

Definition round_f (t b c d : Z) : Z :=
  if t <? 20 then Z.lor (Z.land b c) (Z.land (Z.lxor b 4294967295) d)
  else if t <? 40 then Z.lxor (Z.lxor b c) d
  else if t <? 60 then Z.lor (Z.lor (Z.land b c) (Z.land b d)) (Z.land c d)
  else Z.lxor (Z.lxor b c) d.

Definition round_k (t : Z) : Z :=
  if t <? 20 then 1518500249
  else if t <? 40 then 1859775393
  else if t <? 60 then 2400959708
  else 3395469782.

Definition regs : Type := Z * Z * Z * Z * Z.

Fixpoint rounds (t : Z) (ws : list Z) (r : regs) : regs :=
  match ws with
  | [] => r
  | w :: ws' =>
      let '(a, b, c, d, e) := r in
      let temp := w32 (rotl 5 a + round_f t b c d + e + round_k t + w) in
      rounds (t + 1) ws' (temp, a, rotl 30 b, c, d)
  end.

Definition compress (h : regs) (block : list Z) : regs :=
  let '(h0, h1, h2, h3, h4) := h in
  let '(a, b, c, d, e) := rounds 0 (schedule block) h in
  (w32 (h0 + a), w32 (h1 + b), w32 (h2 + c), w32 (h3 + d), w32 (h4 + e)).

Fixpoint blocks (n : nat) (ws : list Z) (h : regs) : regs :=
  match n with
  | O => h
  | S n' => blocks n' (skipn 16 ws) (compress h (firstn 16 ws))
  end.

Definition init : regs :=
  (1732584193, 4023233417, 2562383102, 271733878, 3285377520).

Definition digest (msg : bytes) : regs :=
  let ws := words (pad msg) in
  blocks (Nat.div (length ws) 16) ws init.

Definition hex_digit (d : Z) : char := if d <? 10 then 48 + d else 87 + d.

Definition hex32 (x : Z) : str :=
  map (fun i => hex_digit (Z.land (Z.shiftr x (4 * Z.of_nat i)) 15))
      (rev (seq 0 8)).

(** [hashlib.sha1(msg).hexdigest()] *)
Definition hexdigest (msg : bytes) : str :=
  let '(h0, h1, h2, h3, h4) := digest msg in
  hex32 h0 ++ hex32 h1 ++ hex32 h2 ++ hex32 h3 ++ hex32 h4.

End Sha1.

(** ** The script *)

Module Corpus.

Import PyStr.

(** Filtering thresholds (lines 10-11). *)
Definition MIN_CHARS : Z := 50.
Definition MAX_CHARS : Z := 50000.

(** Target size in bytes (line 6) and the three quotas of [main]:
    [int(TARGET_SIZE * 0.3)], the same again, and [int(TARGET_SIZE * 0.4)]. *)
Definition TARGET_SIZE : Z := 1000000000.
Definition QUOTA_STACK_PY : Z := 300000000.
Definition QUOTA_STACK_JS : Z := 300000000.
Definition QUOTA_WIKI : Z := 400000000.

(** What a dataset example holds under a field name: a text, or [None]. *)
Inductive value :=
  | PyNone
  | PyStr (text : str).

(** [example.get(field, None)] for an example that maps field names to
    values. *)
Definition get (example : gmap string value) (field : string) : value :=
  default PyNone (example !! field).

(** The local counters of one call together with the two shared objects it
    mutates. *)
Record state := State {
  written : Z;
  kept : Z;
  seen_hashes : gset str;
  file_handle : list str
}.

(** How one pass through the loop body ends: a [continue] statement, the end
    of the body, [break], or an exception. *)
Inductive flow := Skip | Next | Break | Raise.

(** How the [for] loop ends. *)
Inductive exit := Exhausted | QuotaReached | Raised.

Section WithLower.

(** Python's [str.lower]. *)
Variable lower : str -> str.

(** Lines 13-14. *)
Definition normalize (text : str) : str := lower (strip text).

(** Lines 16-17. *)
Definition hash_text (text : str) : option str :=
  b ← encode text; Some (Sha1.hexdigest b).

(** Lines 24-47, one iteration of the loop. *)
Definition loop_body (field : string) (max_chars : Z) (st : state)
    (example : gmap string value) : state * flow :=
  match get example field with
  | PyNone => (st, Skip)
  | PyStr text =>
      let text := replace_crlf (strip text) in
      if bool_decide (text = []) then (st, Skip)
      else if (len text <? MIN_CHARS) || (len text >? MAX_CHARS) then (st, Skip)
      else
        match hash_text (normalize text) with
        | None => (st, Raise)
        | Some h =>
            if bool_decide (h ∈ seen_hashes st) then (st, Skip)
            else
              let seen := {[h]} ∪ seen_hashes st in
              let file := file_handle st ++ [text ++ [LF]] in
              match encode text with
              | None => (State (written st) (kept st) seen file, Raise)
              | Some b =>
                  let st' := State (written st + len b) (kept st + 1) seen file in
                  if written st' >=? max_chars then (st', Break) else (st', Next)
              end
        end
  end.

(** Lines 22-47. *)
Fixpoint for_loop (field : string) (max_chars : Z) (st : state)
    (dataset : list (gmap string value)) : state * exit :=
  match dataset with
  | [] => (st, Exhausted)
  | example :: rest =>
      match loop_body field max_chars st example with
      | (st', Skip) | (st', Next) => for_loop field max_chars st' rest
      | (st', Break) => (st', QuotaReached)
      | (st', Raise) => (st', Raised)
      end
  end.

(** Lines 19-48.  The result is the shared set and file as the call leaves
    them, and the returned pair [(written, kept)], or [None] when an
    exception left the function. *)
Definition write_streaming_dataset (dataset : list (gmap string value))
    (field : string) (file_handle0 : list str) (max_chars : Z)
    (seen_hashes0 : gset str) : gset str * list str * option (Z * Z) :=
  let '(st, ex) :=
    for_loop field max_chars (State 0 0 seen_hashes0 file_handle0) dataset in
  (seen_hashes st, file_handle st,
   match ex with
   | Raised => None
   | _ => Some (written st, kept st)
   end).

(** One call of [main]: a dataset, its field name and its quota. *)
Record call := Call {
  call_dataset : list (gmap string value);
  call_field : string;
  call_max_chars : Z
}.

(** Lines 61-77 for any sequence of calls: each call gets the same set and
    file, the totals add up, and an exception ends the run. *)
Fixpoint run (calls : list call) (seen : gset str) (file : list str)
    (total_written total_kept : Z) : gset str * list str * option (Z * Z) :=
  match calls with
  | [] => (seen, file, Some (total_written, total_kept))
  | c :: calls' =>
      match write_streaming_dataset (call_dataset c) (call_field c) file (call_max_chars c) seen with
      | (seen', file', Some (w, k)) =>
          run calls' seen' file' (total_written + w) (total_kept + k)
      | (seen', file', None) => (seen', file', None)
      end
  end.

(** Lines 51-77: an empty set, a file opened for writing, three calls. *)
Definition main (stack_py stack_js wiki : list (gmap string value))
    : gset str * list str * option (Z * Z) :=
  run [Call stack_py "content" QUOTA_STACK_PY;
       Call stack_js "content" QUOTA_STACK_JS;
       Call wiki "text" QUOTA_WIKI] ∅ [] 0 0.

(** *** Vocabulary of the specification *)

(** The text of a record as line 28 leaves it. *)
Definition clean (raw : str) : str := replace_crlf (strip raw).

(** What [write] receives for an accepted text (line 42). *)
Definition entry (text : str) : str := text ++ [LF].

(** The tests of lines 29 and 33 on a cleaned text. *)
Definition in_window (text : str) : bool :=
  negb (bool_decide (text = []))
  && negb ((len text <? MIN_CHARS) || (len text >? MAX_CHARS)).

(** A record passes the filters of lines 25-34. *)
Definition passes (v : value) : bool :=
  match v with
  | PyNone => false
  | PyStr raw => in_window (clean raw)
  end.

(** The normalized text of a record, the argument of [hash_text] on line 37. *)
Definition key (v : value) : option str :=
  match v with
  | PyNone => None
  | PyStr raw => Some (normalize (clean raw))
  end.

(** The fingerprint of a record, when its normalized text can be encoded. *)
Definition fingerprint (v : value) : option str :=
  k ← key v; hash_text k.

(** The cleaned texts of the records of a dataset that pass the filters, in
    the order of the dataset. *)
Definition accepted_texts (field : string)
    (dataset : list (gmap string value)) : list str :=
  omap (fun example =>
          match get example field with
          | PyStr raw => if in_window (clean raw) then Some (clean raw) else None
          | PyNone => None
          end) dataset.

(** The sum of the UTF-8 lengths of some texts. *)
Fixpoint total_bytes (texts : list str) : option Z :=
  match texts with
  | [] => Some 0
  | text :: texts' =>
      b ← encode text;
      n ← total_bytes texts';
      Some (len b + n)
  end.

(** Neither line 37 nor line 43 raises for this record: its cleaned text and
    the normalized form of it have a UTF-8 encoding. *)
Definition well_encoded (field : string) (example : gmap string value) : Prop :=
  match get example field with
  | PyNone => True
  | PyStr raw =>
      is_Some (hash_text (normalize (clean raw))) /\ is_Some (encode (clean raw))
  end.

(** The records a loop pulls from its dataset, each with whether the body
    wrote to the file for it.  Nothing is pulled after [break] or after an
    exception. *)
Fixpoint journal (field : string) (max_chars : Z) (st : state)
    (dataset : list (gmap string value)) : list (value * bool) :=
  match dataset with
  | [] => []
  | example :: rest =>
      let '(st', fl) := loop_body field max_chars st example in
      (get example field, bool_decide (file_handle st' ≠ file_handle st))
      :: match fl with
         | Skip | Next => journal field max_chars st' rest
         | Break | Raise => []
         end
  end.

(** The journal of a whole run, call after call. *)
Fixpoint run_journal (calls : list call) (seen : gset str) (file : list str)
    : list (value * bool) :=
  match calls with
  | [] => []
  | c :: calls' =>
      journal (call_field c) (call_max_chars c) (State 0 0 seen file) (call_dataset c)
      ++ match write_streaming_dataset (call_dataset c) (call_field c) file (call_max_chars c) seen with
         | (seen', file', Some _) => run_journal calls' seen' file'
         | (_, _, None) => []
         end
  end.

(** The fingerprints and the texts of the journal entries marked written. *)
Definition written_fingerprints (jl : list (value * bool)) : list str :=
  omap (fun e : value * bool => if e.2 then fingerprint e.1 else None) jl.

Definition written_texts (jl : list (value * bool)) : list str :=
  omap (fun e : value * bool =>
          if e.2 then
            match e.1 with
            | PyStr raw => Some (clean raw)
            | PyNone => None
            end
          else None) jl.

(** A journal that deduplicates from the set [seen]: a record is marked
    written exactly when it passes the filters and its fingerprint exists
    and is not in the set, which then receives it. *)
Inductive dedup_from : gset str -> list (value * bool) -> Prop :=
  | dedup_nil seen :
      dedup_from seen []
  | dedup_skip seen v jl :
      ~ (passes v = true /\ exists h, fingerprint v = Some h /\ h ∉ seen) ->
      dedup_from seen jl ->
      dedup_from seen ((v, false) :: jl)
  | dedup_write seen v h jl :
      passes v = true ->
      fingerprint v = Some h ->
      h ∉ seen ->
      dedup_from ({[h]} ∪ seen) jl ->
      dedup_from seen ((v, true) :: jl).

(** The outcomes of one iteration, case by case. *)
Inductive body_spec (field : string) (max_chars : Z) (st : state)
    (example : gmap string value) : state -> flow -> Prop :=
  | body_missing :
      get example field = PyNone ->
      body_spec field max_chars st example st Skip
  | body_rejected raw :
      get example field = PyStr raw ->
      in_window (clean raw) = false ->
      body_spec field max_chars st example st Skip
  | body_unhashable raw :
      get example field = PyStr raw ->
      in_window (clean raw) = true ->
      hash_text (normalize (clean raw)) = None ->
      body_spec field max_chars st example st Raise
  | body_duplicate raw h :
      get example field = PyStr raw ->
      in_window (clean raw) = true ->
      hash_text (normalize (clean raw)) = Some h ->
      h ∈ seen_hashes st ->
      body_spec field max_chars st example st Skip
  | body_unencodable raw h :
      get example field = PyStr raw ->
      in_window (clean raw) = true ->
      hash_text (normalize (clean raw)) = Some h ->
      h ∉ seen_hashes st ->
      encode (clean raw) = None ->
      body_spec field max_chars st example
        (State (written st) (kept st) ({[h]} ∪ seen_hashes st)
               (file_handle st ++ [entry (clean raw)]))
        Raise
  | body_kept raw h b :
      get example field = PyStr raw ->
      in_window (clean raw) = true ->
      hash_text (normalize (clean raw)) = Some h ->
      h ∉ seen_hashes st ->
      encode (clean raw) = Some b ->
      body_spec field max_chars st example
        (State (written st + len b) (kept st + 1) ({[h]} ∪ seen_hashes st)
               (file_handle st ++ [entry (clean raw)]))
        (if written st + len b >=? max_chars then Break else Next).

(** The four reasons for which a record is skipped. *)
Inductive skippable (field : string) (seen : gset str)
    (example : gmap string value) : Prop :=
  | skip_missing :
      get example field = PyNone ->
      skippable field seen example
  | skip_empty raw :
      get example field = PyStr raw ->
      clean raw = [] ->
      skippable field seen example
  | skip_window raw :
      get example field = PyStr raw ->
      len (clean raw) < MIN_CHARS \/ MAX_CHARS < len (clean raw) ->
      skippable field seen example
  | skip_duplicate raw h :
      get example field = PyStr raw ->
      hash_text (normalize (clean raw)) = Some h ->
      h ∈ seen ->
      skippable field seen example.

End WithLower.

End Corpus.

(** ** Sample data *)

Module Demo.

Import PyStr Corpus.

(** A dataset example with one field. *)
Definition row (field : string) (text : str) : gmap string value :=
  {[ field := PyStr text ]}.

(** The text of the record ["   \n  "] of the specification. *)
Definition whitespace_only : str := [32; 32; 32; 10; 32; 32].

(** Fifty characters, and the same in upper case. *)
Definition snippet : str :=
  lit "hello world, this line is padded to fifty chars!!!".
Definition SNIPPET : str :=
  lit "HELLO WORLD, THIS LINE IS PADDED TO FIFTY CHARS!!!".

(** Sixty-one characters. *)
Definition other : str :=
  lit "def main(): return 0  # one more snippet, of sixty characters".

Definition short : str := lit "short".

(** [n] times the letter e with an acute accent, two bytes each in UTF-8. *)
Definition accented (n : nat) : str := repeat 233 n.

(** The UTF-8 bytes of [accented n]. *)
Definition accented_bytes (n : nat) : bytes := concat (repeat [195; 169] n).

(** A record whose text is [accented n]. *)
Definition probe (n : nat) : gmap string value := row "text" (accented n).

(** The SHA-1 digests of [snippet] and of [other] in lower case. *)
Definition h_snippet : str := lit "1f6b9bdb4803e32fcd7fb1d03c773fa1944b75e1".
Definition h_other : str := lit "bb49516be3456b7a52008021ddcce86e09d4383d".

(** The state in which the first call of a run starts, and the state after
    [snippet] was kept. *)
Definition fresh : state := State 0 0 ∅ [].
Definition kept_snippet : state :=
  State 50 1 {[h_snippet]} [snippet ++ [LF]].

(** A dataset with a duplicate in upper case and a text that is too short,
    and a run of two calls that share a text. *)
Definition samples : list (gmap string value) :=
  [row "content" snippet; row "content" SNIPPET;
   row "content" short; row "content" other].

(** A dataset without duplicates. *)
Definition distinct_samples : list (gmap string value) :=
  [row "content" snippet; row "content" short;
   row "content" other; row "content" whitespace_only].

Definition two_calls : list call :=
  [Call [row "content" snippet; row "content" short] "content" 1000;
   Call [row "text" SNIPPET; row "text" other] "text" 1000].

(** Fifty lone surrogates: a text that passes the filters and that
    [str.encode] refuses. *)
Definition lone_surrogates : str := repeat 55296 50.

Definition short_twice : list (gmap string value) :=
  [row "content" short; row "content" short].

(** The outcomes the examples look at. *)
Definition step_snippet : state * flow :=
  loop_body ascii_lower "content" 1000 fresh (row "content" snippet).

Definition call_samples : gset str * list str * option (Z * Z) :=
  write_streaming_dataset ascii_lower samples "content" [] 1000 ∅.

Definition call_quota_zero : gset str * list str * option (Z * Z) :=
  write_streaming_dataset ascii_lower
    [row "content" snippet; row "content" other] "content" [] 0 ∅.

Definition call_short_twice : gset str * list str * option (Z * Z) :=
  write_streaming_dataset ascii_lower short_twice "content" [] 1000 ∅.

Definition call_snippet : gset str * list str * option (Z * Z) :=
  write_streaming_dataset ascii_lower [row "content" snippet] "content" []
    1000 ∅.

Definition call_other_after : gset str * list str * option (Z * Z) :=
  write_streaming_dataset ascii_lower [row "content" other] "content"
    [snippet ++ [LF]] (1000 - 50) call_snippet.1.1.


Definition run_two_calls : gset str * list str * option (Z * Z) :=
  run ascii_lower two_calls ∅ [] 0 0.

Definition main_samples : gset str * list str * option (Z * Z) :=
  main ascii_lower samples [] [].

End Demo.

Import PyStr Corpus Demo.

Example sha1_empty :
  Sha1.hexdigest [] = lit "da39a3ee5e6b4b0d3255bfef95601890afd80709".
Proof. vm_compute. reflexivity. Qed.

Example sha1_abc :
  Sha1.hexdigest [97; 98; 99] = lit "a9993e364706816aba3e25717850c26c9cd0d89d".
Proof. vm_compute. reflexivity. Qed.

Example sha1_fox :
  hash_text (lit "The quick brown fox jumps over the lazy dog")
  = Some (lit "2fd4e1c67a2d28fced849ee1bb76e7391b93eb12").
Proof. vm_compute. reflexivity. Qed.

Example sha1_two_blocks :
  hash_text (lit "abcdbcdecdefdefgefghfghighijhijkijkljklmklmnlmnomnopnopq")
  = Some (lit "84983e441c3bd26ebaae4aa1f95129e5e54670f1").
Proof. vm_compute. reflexivity. Qed.

(** ** Facts about one iteration *)

Section TextFacts.

Lemma in_window_true text :
  in_window text = true <->
  text <> [] /\ MIN_CHARS <= len text <= MAX_CHARS.
Proof.
  unfold in_window.
  rewrite andb_true_iff, !negb_true_iff, orb_false_iff, bool_decide_eq_false.
  rewrite Z.ltb_ge, Z.gtb_ltb, Z.ltb_ge. tauto.
Qed.

Lemma in_window_false text :
  in_window text = false <->
  text = [] \/ len text < MIN_CHARS \/ MAX_CHARS < len text.
Proof.
  unfold in_window.
  rewrite andb_false_iff, !negb_false_iff, orb_true_iff, bool_decide_eq_true.
  rewrite Z.ltb_lt, Z.gtb_ltb, Z.ltb_lt. tauto.
Qed.

Lemma encode_app s1 s2 b1 b2 :
  encode s1 = Some b1 -> encode s2 = Some b2 ->
  encode (s1 ++ s2) = Some (b1 ++ b2).
Proof.
  revert b1. induction s1 as [|c s1 IH]; intros b1 H1 H2; simpl in *.
  - by simplify_eq.
  - destruct (encode_char c) as [bc|]; [|done]. simpl in *.
    destruct (encode s1) as [bs|]; [|done]. simpl in *. simplify_eq.
    rewrite (IH bs) by done. simpl. by rewrite app_assoc.
Qed.

Lemma encode_is_Some s :
  forallb (fun c => bool_decide (is_Some (encode_char c))) s = true ->
  is_Some (encode s).
Proof.
  induction s as [|c s IH]; simpl; [by eexists|].
  intros Hs. apply andb_true_iff in Hs as [Hc Hs].
  apply bool_decide_eq_true in Hc as [b ->]. simpl.
  destruct (IH Hs) as [bs ->]. by eexists.
Qed.

Lemma encode_entry text b :
  encode text = Some b -> encode (entry text) = Some (b ++ [10]).
Proof. intros H. by apply encode_app. Qed.

Lemma rstrip_last s c : last (rstrip s) = Some c -> isspace c = false.
Proof.
  induction s as [|a s IH]; simpl; [done|].
  destruct (rstrip s) as [|d r].
  - destruct (isspace a) eqn:Ha; simpl; [done|]. intros ?. by simplify_eq.
  - rewrite last_cons_cons. exact IH.
Qed.

Lemma strip_last s c : last (strip s) = Some c -> isspace c = false.
Proof. apply rstrip_last. Qed.

Lemma replace_crlf_cons2 a d rest :
  replace_crlf (a :: d :: rest)
  = if (a =? CR) && (d =? LF) then LF :: replace_crlf rest
    else a :: replace_crlf (d :: rest).
Proof. reflexivity. Qed.

Lemma last_cons_Some {A} (x c : A) l : last l = Some c -> last (x :: l) = Some c.
Proof. destruct l; [done|]. by rewrite last_cons_cons. Qed.

Lemma replace_crlf_last_aux n : forall s c,
  (length s <= n)%nat -> last s = Some c -> c <> LF ->
  last (replace_crlf s) = Some c.
Proof.
  induction n as [|n IH]; intros s c Hn Hlast Hc.
  { destruct s; simpl in *; [done|lia]. }
  destruct s as [|a [|d rest]]; [done|done|].
  rewrite last_cons_cons in Hlast. rewrite replace_crlf_cons2.
  destruct ((a =? CR) && (d =? LF)) eqn:Hcr.
  - apply andb_true_iff in Hcr as [_ Hd]. apply Z.eqb_eq in Hd. subst d.
    destruct rest as [|e rest]; [by simplify_eq|].
    rewrite last_cons_cons in Hlast.
    apply last_cons_Some, IH; [simpl in *; lia|done|done].
  - apply last_cons_Some, IH; [simpl in *; lia|done|done].
Qed.

(** A cleaned text does not end in white space, so not in a newline. *)
Lemma clean_last raw c : last (clean raw) = Some c -> isspace c = false.
Proof.
  unfold clean. intros Hlast.
  destruct (last (strip raw)) as [d|] eqn:Hd.
  - pose proof (strip_last _ _ Hd) as Hsp.
    rewrite (replace_crlf_last_aux (length (strip raw)) (strip raw) d) in Hlast;
      [by simplify_eq|lia|done|].
    intros ->. done.
  - apply last_None in Hd. by rewrite Hd in Hlast.
Qed.

Lemma total_bytes_nonneg texts n : total_bytes texts = Some n -> 0 <= n.
Proof.
  revert n. induction texts as [|t texts IH]; intros n; simpl.
  - intros ?. simplify_eq. lia.
  - destruct (encode t) as [b|]; [|done]. simpl.
    destruct (total_bytes texts) as [m|]; [|done]. simpl.
    intros ?. simplify_eq. specialize (IH m eq_refl). unfold len. lia.
Qed.

End TextFacts.

Section BodyFacts.

Variable lower : str -> str.

Lemma loop_body_spec field max_chars st example :
  body_spec lower field max_chars st example
    (loop_body lower field max_chars st example).1
    (loop_body lower field max_chars st example).2.
Proof.
  unfold loop_body.
  destruct (get example field) as [|raw] eqn:Hget; [by constructor|].
  fold (clean raw).
  destruct (in_window (clean raw)) eqn:Hwin.
  - pose proof Hwin as Hw. unfold in_window in Hw.
    apply andb_true_iff in Hw as [Hne Hlen].
    apply negb_true_iff in Hne, Hlen. rewrite Hne, Hlen. clear Hne Hlen.
    destruct (hash_text (normalize lower (clean raw))) as [h|] eqn:Hh;
      [|by eapply body_unhashable].
    destruct (bool_decide (h ∈ seen_hashes st)) eqn:Hseen.
    { apply bool_decide_eq_true in Hseen. by eapply body_duplicate. }
    apply bool_decide_eq_false in Hseen.
    destruct (encode (clean raw)) as [b|] eqn:Hb; simpl.
    + pose proof (body_kept lower field max_chars st example raw h b
                    Hget Hwin Hh Hseen Hb) as Hk.
      by destruct (written st + len b >=? max_chars).
    + by eapply body_unencodable.
  - pose proof Hwin as Hw. unfold in_window in Hw.
    destruct (bool_decide (clean raw = [])); [by eapply body_rejected|].
    simpl in Hw. apply negb_false_iff in Hw. rewrite Hw.
    by eapply body_rejected.
Qed.

Lemma loop_body_inv field max_chars st example st' fl :
  loop_body lower field max_chars st example = (st', fl) ->
  body_spec lower field max_chars st example st' fl.
Proof.
  intros Heq. pose proof (loop_body_spec field max_chars st example) as H.
  by rewrite Heq in H.
Qed.

Lemma loop_body_skip field max_chars st example :
  skippable lower field (seen_hashes st) example ->
  loop_body lower field max_chars st example = (st, Skip).
Proof.
  intros Hskip. unfold loop_body.
  destruct Hskip as [Hget|raw Hget Hempty|raw Hget Hlen|raw h Hget Hh Hin];
    rewrite Hget; [done|fold (clean raw)..].
  - by rewrite Hempty.
  - destruct (bool_decide (clean raw = [])); [done|].
    replace ((len (clean raw) <? MIN_CHARS) || (len (clean raw) >? MAX_CHARS))
      with true; [done|].
    symmetry. apply orb_true_iff. rewrite Z.ltb_lt, Z.gtb_ltb, Z.ltb_lt. lia.
  - destruct (bool_decide (clean raw = [])); [done|].
    destruct ((len (clean raw) <? MIN_CHARS) || (len (clean raw) >? MAX_CHARS));
      [done|].
    rewrite Hh. by rewrite bool_decide_eq_true_2.
Qed.

Lemma loop_body_keep field max_chars st example raw h b :
  get example field = PyStr raw ->
  in_window (clean raw) = true ->
  hash_text (normalize lower (clean raw)) = Some h ->
  h ∉ seen_hashes st ->
  encode (clean raw) = Some b ->
  loop_body lower field max_chars st example
  = (State (written st + len b) (kept st + 1) ({[h]} ∪ seen_hashes st)
           (file_handle st ++ [entry (clean raw)]),
     if written st + len b >=? max_chars then Break else Next).
Proof.
  intros Hget Hwin Hh Hseen Hb. unfold loop_body. rewrite Hget.
  fold (clean raw). unfold in_window in Hwin.
  apply andb_true_iff in Hwin as [Hne Hlen].
  apply negb_true_iff in Hne, Hlen. rewrite Hne, Hlen, Hh.
  rewrite bool_decide_eq_false_2 by done. rewrite Hb. simpl.
  by destruct (written st + len b >=? max_chars).
Qed.

Lemma loop_body_reject field max_chars st example raw :
  get example field = PyStr raw ->
  in_window (clean raw) = false ->
  loop_body lower field max_chars st example = (st, Skip).
Proof.
  intros Hget Hwin. apply loop_body_skip.
  apply in_window_false in Hwin as [Hnil|Hlen].
  - by eapply skip_empty.
  - by eapply skip_window.
Qed.

Lemma loop_body_missing field max_chars st example :
  get example field = PyNone ->
  loop_body lower field max_chars st example = (st, Skip).
Proof. intros Hget. apply loop_body_skip. by apply skip_missing. Qed.

Lemma loop_body_seen_mono field max_chars st example :
  seen_hashes st ⊆ seen_hashes (loop_body lower field max_chars st example).1.
Proof.
  pose proof (loop_body_spec field max_chars st example) as Hb.
  destruct (loop_body lower field max_chars st example) as [st' fl].
  simpl in *. inversion Hb; subst; simpl; set_solver.
Qed.

End BodyFacts.

(** ** Facts about the loop *)

Section LoopFacts.

Variable lower : str -> str.
Variable field : string.
Variable max_chars : Z.

(** The loop rule: [I] holds whenever a record is about to be pulled, [Q]
    when the loop is left. *)
Lemma for_loop_rule (I : state -> Prop) (Q : state -> exit -> Prop) :
  (forall st, I st -> Q st Exhausted) ->
  (forall st example st' fl,
     I st -> body_spec lower field max_chars st example st' fl ->
     match fl with
     | Skip | Next => I st'
     | Break => Q st' QuotaReached
     | Raise => Q st' Raised
     end) ->
  forall dataset st,
    I st ->
    Q (for_loop lower field max_chars st dataset).1
      (for_loop lower field max_chars st dataset).2.
Proof.
  intros Hexit Hstep dataset.
  induction dataset as [|example rest IH]; intros st HI; simpl.
  - by apply Hexit.
  - pose proof (loop_body_spec lower field max_chars st example) as Hb.
    pose proof (Hstep _ _ _ _ HI Hb) as Hs.
    destruct (loop_body lower field max_chars st example) as [st' fl].
    simpl in Hs. destruct fl; simpl; auto.
Qed.

Lemma for_loop_app pre post st :
  for_loop lower field max_chars st (pre ++ post)
  = match for_loop lower field max_chars st pre with
    | (st', Exhausted) => for_loop lower field max_chars st' post
    | r => r
    end.
Proof.
  revert st. induction pre as [|example pre IH]; intros st; simpl; [done|].
  destruct (loop_body lower field max_chars st example) as [st' fl].
  destruct fl; auto.
Qed.

Lemma write_streaming_dataset_unfold dataset file seen :
  write_streaming_dataset lower dataset field file max_chars seen
  = let r := for_loop lower field max_chars (State 0 0 seen file) dataset in
    (seen_hashes r.1, file_handle r.1,
     match r.2 with
     | Raised => None
     | _ => Some (written r.1, kept r.1)
     end).
Proof.
  unfold write_streaming_dataset.
  by destruct (for_loop lower field max_chars (State 0 0 seen file) dataset).
Qed.

Lemma write_streaming_dataset_inv dataset file seen seen' file' w k :
  write_streaming_dataset lower dataset field file max_chars seen
  = (seen', file', Some (w, k)) ->
  exists ex,
    for_loop lower field max_chars (State 0 0 seen file) dataset
    = (State w k seen' file', ex) /\ ex <> Raised.
Proof.
  rewrite write_streaming_dataset_unfold.
  destruct (for_loop lower field max_chars (State 0 0 seen file) dataset)
    as [[w1 k1 s1 f1] ex].
  simpl. destruct ex; intros ?; simplify_eq; eauto.
Qed.

(** The set only grows. *)
Lemma for_loop_seen_mono dataset st :
  seen_hashes st ⊆ seen_hashes (for_loop lower field max_chars st dataset).1.
Proof.
  apply (for_loop_rule (fun s => seen_hashes st ⊆ seen_hashes s)
                       (fun s _ => seen_hashes st ⊆ seen_hashes s));
    [done| |done].
  intros s example s' fl HI Hb.
  inversion Hb; subst; simpl; try done; try set_solver.
  destruct (written s + len b >=? max_chars); set_solver.
Qed.

(** No exception when every record can be encoded. *)
Lemma for_loop_no_raise dataset st :
  Forall (well_encoded lower field) dataset ->
  (for_loop lower field max_chars st dataset).2 <> Raised.
Proof.
  revert st. induction dataset as [|example rest IH]; intros st Hall; simpl;
    [done|].
  apply Forall_cons in Hall as [Hex Hall].
  pose proof (loop_body_spec lower field max_chars st example) as Hb.
  destruct (loop_body lower field max_chars st example) as [st' fl].
  simpl in Hb. unfold well_encoded in Hex.
  inversion Hb; subst; try (by apply IH);
    try match goal with
        | Hg : get example field = PyStr _ |- _ =>
            rewrite Hg in Hex; destruct Hex as [[? ?] [? ?]]
        end;
    try congruence.
  destruct (written st + len b >=? max_chars); [done|by apply IH].
Qed.

(** The counter [kept], the file and the set move together. *)
Lemma for_loop_counts dataset st :
  let r := for_loop lower field max_chars st dataset in
  r.2 <> Raised ->
  exists new,
    file_handle r.1 = file_handle st ++ new
    /\ Z.of_nat (length new) = kept r.1 - kept st
    /\ Forall (fun e => exists text, e = entry text) new
    /\ Z.of_nat (size (seen_hashes r.1))
       = Z.of_nat (size (seen_hashes st)) + (kept r.1 - kept st).
Proof.
  set (I := fun s : state =>
    exists new,
      file_handle s = file_handle st ++ new
      /\ Z.of_nat (length new) = kept s - kept st
      /\ Forall (fun e => exists text, e = entry text) new
      /\ Z.of_nat (size (seen_hashes s))
         = Z.of_nat (size (seen_hashes st)) + (kept s - kept st)).
  apply (for_loop_rule I (fun s ex => ex <> Raised -> I s)); [done| |].
  - intros s example s' fl (new & Hf & Hl & Hent & Hsz) Hb.
    assert (Hkeep : forall h text b, h ∉ seen_hashes s ->
      I (State (written s + len b) (kept s + 1) ({[h]} ∪ seen_hashes s)
               (file_handle s ++ [entry text]))).
    { intros h text b Hh. exists (new ++ [entry text]). simpl.
      rewrite Hf, app_assoc. split; [done|]. split.
      - rewrite length_app. simpl. lia.
      - split; [apply Forall_app; split; [done|]; repeat constructor; eauto|].
        rewrite size_union by set_solver. rewrite size_singleton. lia. }
    inversion Hb; subst; try (by exists new); try done.
    destruct (written s + len b >=? max_chars); [intros _|]; by apply Hkeep.
  - exists []. rewrite app_nil_r. simpl.
    repeat split; [lia|constructor|lia].
Qed.

(** Before a record is pulled, either nothing was kept yet or the total is
    below the quota. *)
Lemma for_loop_below_quota dataset st :
  kept st = 0 ->
  let r := for_loop lower field max_chars st dataset in
  r.2 = Exhausted -> kept r.1 = 0 \/ written r.1 < max_chars.
Proof.
  intros Hk0.
  set (I := fun s : state => 0 <= kept s /\ (kept s = 0 \/ written s < max_chars)).
  apply (for_loop_rule I (fun s ex => ex = Exhausted ->
                            kept s = 0 \/ written s < max_chars)).
  - by intros s [_ H] _.
  - intros s example s' fl [Hk HI] Hb.
    inversion Hb; subst; try done.
    destruct (written s + len b >=? max_chars) eqn:Hq; [done|].
    split; simpl; [lia|]. right. lia.
  - split; [lia|by left].
Qed.

(** Before the last accepted write the total was zero or below the quota. *)
Lemma for_loop_overshoot dataset seen file :
  let r := for_loop lower field max_chars (State 0 0 seen file) dataset in
  r.2 <> Raised ->
  ((kept r.1 = 0 /\ written r.1 = 0 /\ file_handle r.1 = file)
   \/ exists text b,
        last (file_handle r.1) = Some (entry text)
        /\ encode text = Some b
        /\ 0 <= written r.1 - len b <= Z.max (max_chars - 1) 0)
  /\ (max_chars <= 0 -> kept r.1 <= 1).
Proof.
  set (K := fun s : state =>
    exists text b,
      last (file_handle s) = Some (entry text)
      /\ encode text = Some b
      /\ 0 <= written s - len b <= Z.max (max_chars - 1) 0).
  set (Z0 := fun s : state =>
    kept s = 0 /\ written s = 0 /\ file_handle s = file).
  set (I := fun s : state =>
    0 <= written s /\ (Z0 s \/ (written s < max_chars /\ K s))
    /\ (max_chars <= 0 -> kept s = 0)).
  apply (for_loop_rule I (fun s ex => ex <> Raised ->
           (Z0 s \/ K s) /\ (max_chars <= 0 -> kept s <= 1))).
  - intros s (Hw & HI & Hk) _. split; [tauto|]. intros Hm. rewrite Hk; lia.
  - intros s example s' fl (Hw & HI & Hk) Hb.
    inversion Hb; subst; try done.
    assert (HK : K (State (written s + len b) (kept s + 1)
                          ({[h]} ∪ seen_hashes s)
                          (file_handle s ++ [entry (clean raw)]))).
    { exists (clean raw), b. simpl. rewrite last_snoc.
      split; [done|]. split; [done|].
      destruct HI as [(_ & Hw0 & _)|[Hlt _]]; lia. }
    assert (0 <= len b) by (unfold len; lia).
    destruct (written s + len b >=? max_chars) eqn:Hq.
    + intros _. split; [by right|]. intros Hm. rewrite Hk; simpl; lia.
    + unfold I. simpl. split; [lia|]. split; [right; split; [lia|done]|lia].
  - unfold I, Z0. simpl. split; [lia|]. split; [by left|done].
Qed.

(** What a loop appends to the file and adds to the set. *)
Lemma for_loop_entries dataset st :
  let r := for_loop lower field max_chars st dataset in
  exists texts hs,
    file_handle r.1 = file_handle st ++ map entry texts
    /\ seen_hashes r.1 = seen_hashes st ∪ list_to_set hs
    /\ Forall2 (fun text h => hash_text (normalize lower text) = Some h) texts hs
    /\ Forall (fun text =>
                exists example raw,
                  example ∈ dataset
                  /\ get example field = PyStr raw
                  /\ text = replace_crlf (strip raw)) texts.
Proof.
  revert st. induction dataset as [|example rest IH]; intros st; simpl.
  { exists [], []. simpl. rewrite app_nil_r.
    repeat split; [set_solver|constructor|constructor]. }
  pose proof (loop_body_spec lower field max_chars st example) as Hb.
  destruct (loop_body lower field max_chars st example) as [st' fl].
  simpl in Hb.
  assert (Hsame : st' = st -> exists texts hs,
    file_handle (for_loop lower field max_chars st' rest).1
    = file_handle st ++ map entry texts
    /\ seen_hashes (for_loop lower field max_chars st' rest).1
       = seen_hashes st ∪ list_to_set hs
    /\ Forall2 (fun text h => hash_text (normalize lower text) = Some h) texts hs
    /\ Forall (fun text =>
                exists example0 raw,
                  example0 ∈ example :: rest
                  /\ get example0 field = PyStr raw
                  /\ text = replace_crlf (strip raw)) texts).
  { intros ->. destruct (IH st) as (texts & hs & Hf & Hs & Hh & Hfrom).
    exists texts, hs. repeat split; try done.
    eapply Forall_impl; [exact Hfrom|].
    intros t (e & raw & He & Hg & Ht). exists e, raw.
    split; [by right|done]. }
  assert (Hone : forall raw h,
    get example field = PyStr raw ->
    hash_text (normalize lower (clean raw)) = Some h ->
    exists texts hs,
      file_handle st ++ [entry (clean raw)] = file_handle st ++ map entry texts
      /\ {[h]} ∪ seen_hashes st = seen_hashes st ∪ list_to_set hs
      /\ Forall2 (fun text h => hash_text (normalize lower text) = Some h) texts hs
      /\ Forall (fun text =>
                  exists example0 raw,
                    example0 ∈ example :: rest
                    /\ get example0 field = PyStr raw
                    /\ text = replace_crlf (strip raw)) texts).
  { intros raw h Hget Hh. exists [clean raw], [h]. simpl.
    repeat split; [set_solver|by repeat constructor|].
    repeat constructor. exists example, raw. split; [by left|done]. }
  inversion Hb; subst; simpl; try (by apply Hsame); try (by eapply Hone).
  - exists [], []. simpl. rewrite app_nil_r.
    repeat split; [set_solver|constructor|constructor].
  - destruct (written st + len b >=? max_chars); [by eapply Hone|].
    destruct (IH (State (written st + len b) (kept st + 1)
                        ({[h]} ∪ seen_hashes st)
                        (file_handle st ++ [entry (clean raw)])))
      as (texts & hs & Hf & Hs & Hh & Hfrom).
    exists (clean raw :: texts), (h :: hs). simpl in *.
    rewrite Hf, Hs, <- app_assoc. simpl.
    repeat split; [set_solver|by constructor|].
    constructor.
    + exists example, raw. split; [by left|done].
    + eapply Forall_impl; [exact Hfrom|].
      intros t (e & raw' & He & Hg & Ht). exists e, raw'.
      split; [by right|done].
Qed.

Lemma accepted_texts_cons example rest :
  accepted_texts field (example :: rest)
  = match get example field with
    | PyNone => accepted_texts field rest
    | PyStr raw =>
        if in_window (clean raw) then clean raw :: accepted_texts field rest
        else accepted_texts field rest
    end.
Proof.
  unfold accepted_texts. simpl.
  destruct (get example field) as [|raw]; [done|].
  by destruct (in_window (clean raw)).
Qed.

(** Without duplicates, errors or quota, every accepted text is written. *)
Lemma for_loop_order dataset : forall st hs n,
  Forall2 (fun text h => hash_text (normalize lower text) = Some h)
          (accepted_texts field dataset) hs ->
  NoDup hs ->
  (forall h, h ∈ hs -> h ∉ seen_hashes st) ->
  total_bytes (accepted_texts field dataset) = Some n ->
  written st + n < max_chars ->
  for_loop lower field max_chars st dataset
  = (State (written st + n)
           (kept st + Z.of_nat (length (accepted_texts field dataset)))
           (seen_hashes st ∪ list_to_set hs)
           (file_handle st ++ map entry (accepted_texts field dataset)),
     Exhausted).
Proof.
  induction dataset as [|example rest IH]; intros st hs n Hfp Hnd Hfresh Htot Hq.
  { simpl in *. apply Forall2_nil_inv_l in Hfp. simplify_eq. simpl.
    destruct st as [w k s f]. simpl. rewrite app_nil_r.
    f_equal. f_equal; [lia..|set_solver]. }
  rewrite accepted_texts_cons in *. simpl.
  destruct (get example field) as [|raw] eqn:Hget.
  { rewrite loop_body_missing by done. by apply IH. }
  destruct (in_window (clean raw)) eqn:Hwin.
  2:{ rewrite (loop_body_reject lower field max_chars st example raw) by done.
      by apply IH. }
  apply Forall2_cons_inv_l in Hfp as (h & hs' & Hh & Hfp & ->).
  apply NoDup_cons in Hnd as [Hnotin Hnd].
  simpl in Htot.
  destruct (encode (clean raw)) as [b|] eqn:Hb; [|done]. simpl in Htot.
  destruct (total_bytes (accepted_texts field rest)) as [m|] eqn:Hm; [|done].
  simpl in Htot. simplify_eq.
  pose proof (total_bytes_nonneg _ _ Hm) as Hm0.
  rewrite (loop_body_keep lower field max_chars st example raw h b)
    by (try done; apply Hfresh; by left).
  replace (written st + len b >=? max_chars) with false
    by (symmetry; rewrite Z.geb_leb; apply Z.leb_gt; lia).
  rewrite (IH _ hs' m); try done.
  - cbn [written kept seen_hashes file_handle length map list_to_set].
    rewrite <- app_assoc, Nat2Z.inj_succ. simpl.
    f_equal. f_equal; [lia..|set_solver].
  - intros h' Hin. specialize (Hfresh h' (ltac:(by right))).
    simpl. set_solver.
  - simpl. lia.
Qed.

End LoopFacts.

(** ** Facts about the journal *)

Section JournalFacts.

Variable lower : str -> str.

Lemma loop_body_summary field max_chars st example :
  let r := loop_body lower field max_chars st example in
  let v := get example field in
  (r.1 = st /\ r.2 <> Next /\ r.2 <> Break
   /\ ~ (passes v = true
         /\ exists h, fingerprint lower v = Some h /\ h ∉ seen_hashes st))
  \/ (exists raw h,
        v = PyStr raw /\ passes v = true /\ fingerprint lower v = Some h
        /\ (h ∉ seen_hashes st)
        /\ seen_hashes r.1 = {[h]} ∪ seen_hashes st
        /\ file_handle r.1 = file_handle st ++ [entry (clean raw)]
        /\ r.2 <> Skip).
Proof.
  pose proof (loop_body_spec lower field max_chars st example) as Hb.
  destruct (loop_body lower field max_chars st example) as [st' fl].
  simpl in *.
  inversion Hb as [Hget|raw Hget Hw|raw Hget Hw Hh|raw h Hget Hw Hh Hin
                  |raw h Hget Hw Hh Hin He|raw h b Hget Hw Hh Hin He];
    subst; rewrite Hget; cbn [fst snd passes fingerprint key mbind option_bind seen_hashes file_handle].
  - left. repeat split; try done. by intros [? _].
  - left. repeat split; try done. intros [? _]. congruence.
  - left. repeat split; try done. intros (_ & h & Hh' & _). congruence.
  - left. repeat split; try done. intros (_ & h' & Hh' & Hnin). congruence.
  - right. exists raw, h. by repeat split.
  - right. exists raw, h. repeat split; try done.
    by destruct (written st + len b >=? max_chars).
Qed.

Lemma app_singleton_neq {A} (l : list A) x : l ++ [x] <> l.
Proof.
  intros Heq. apply (f_equal length) in Heq.
  rewrite length_app in Heq. simpl in Heq. lia.
Qed.

(** The journal of a loop deduplicates from the set the loop started with,
    and accounts for what the loop did to the file and to the set. *)
Lemma journal_sound field max_chars dataset : forall st,
  let jl := journal lower field max_chars st dataset in
  let r := for_loop lower field max_chars st dataset in
  dedup_from lower (seen_hashes st) jl
  /\ seen_hashes r.1
     = seen_hashes st ∪ list_to_set (written_fingerprints lower jl)
  /\ file_handle r.1 = file_handle st ++ map entry (written_texts jl).
Proof.
  induction dataset as [|example rest IH]; intros st; simpl.
  { split; [constructor|]. rewrite app_nil_r. split; [set_solver|done]. }
  pose proof (loop_body_summary field max_chars st example) as Hs.
  destruct (loop_body lower field max_chars st example) as [st' fl].
  simpl in Hs.
  destruct Hs as [(-> & Hn & Hb & Hnot)
                 |(raw & h & Hv & Hp & Hh & Hin & Hseen & Hfile & Hsk)].
  - rewrite bool_decide_eq_false_2 by (by intros []).
    destruct (IH st) as (Hd & Hs & Hf).
    destruct fl; try done; simpl.
    + split; [by constructor|]. by rewrite Hs, Hf.
    + split; [constructor; [done|constructor]|].
      rewrite app_nil_r. split; [set_solver|done].
  - rewrite bool_decide_eq_true_2
      by (rewrite Hfile; apply app_singleton_neq).
    rewrite Hv in *. unfold written_fingerprints, written_texts.
    simpl. rewrite Hh. simpl.
    destruct (IH st') as (Hd & Hs & Hf). rewrite Hseen in Hd.
    destruct fl; try done; simpl.
    + split; [by eapply dedup_write|].
      fold (written_fingerprints lower (journal lower field max_chars st' rest)).
      fold (written_texts (journal lower field max_chars st' rest)).
      rewrite Hs, Hf, Hseen, Hfile, <- app_assoc.
      split; [set_solver|done].
    + split; [eapply dedup_write; try done; constructor|].
      rewrite Hseen, Hfile. split; [set_solver|done].
    + split; [eapply dedup_write; try done; constructor|].
      rewrite Hseen, Hfile. split; [set_solver|done].
Qed.

Lemma written_fingerprints_app jl1 jl2 :
  written_fingerprints lower (jl1 ++ jl2)
  = written_fingerprints lower jl1 ++ written_fingerprints lower jl2.
Proof. unfold written_fingerprints. apply omap_app. Qed.

Lemma written_texts_app jl1 jl2 :
  written_texts (jl1 ++ jl2) = written_texts jl1 ++ written_texts jl2.
Proof. unfold written_texts. apply omap_app. Qed.

Lemma dedup_from_app seen jl1 jl2 :
  dedup_from lower seen jl1 ->
  dedup_from lower
    (seen ∪ list_to_set (written_fingerprints lower jl1)) jl2 ->
  dedup_from lower seen (jl1 ++ jl2).
Proof.
  intros Hd. induction Hd as [seen|seen v jl Hnot Hd IH|seen v h jl Hp Hh Hin Hd IH];
    simpl; intros H2.
  - replace seen with (seen ∪ list_to_set (written_fingerprints lower []))
      by (unfold written_fingerprints; simpl; set_solver).
    done.
  - constructor; [done|]. by apply IH.
  - eapply dedup_write; try done. apply IH.
    unfold written_fingerprints in *. simpl in H2. rewrite Hh in H2. simpl in H2.
    replace ({[h]} ∪ seen ∪ list_to_set
               (omap (fun e : value * bool =>
                        if e.2 then fingerprint lower e.1 else None) jl))
      with (seen ∪ ({[h]} ∪ list_to_set
               (omap (fun e : value * bool =>
                        if e.2 then fingerprint lower e.1 else None) jl)))
      by set_solver.
    done.
Qed.

(** The journal of a run deduplicates as well. *)
Lemma run_journal_sound calls : forall seen file total_written total_kept,
  let jl := run_journal lower calls seen file in
  let r := run lower calls seen file total_written total_kept in
  dedup_from lower seen jl
  /\ r.1.1 = seen ∪ list_to_set (written_fingerprints lower jl)
  /\ r.1.2 = file ++ map entry (written_texts jl).
Proof.
  induction calls as [|c calls IH]; intros seen file tw tk; simpl.
  { split; [constructor|]. rewrite app_nil_r. split; [set_solver|done]. }
  pose proof (journal_sound (call_field c) (call_max_chars c) (call_dataset c)
                (State 0 0 seen file)) as (Hd & Hs & Hf).
  rewrite write_streaming_dataset_unfold. simpl in *.
  destruct (for_loop lower (call_field c) (call_max_chars c)
              (State 0 0 seen file) (call_dataset c)) as [st ex].
  simpl in *.
  assert (Hstop :
    dedup_from lower seen
      (journal lower (call_field c) (call_max_chars c) (State 0 0 seen file)
         (call_dataset c) ++ [])
    /\ seen_hashes st
       = seen ∪ list_to_set (written_fingerprints lower
           (journal lower (call_field c) (call_max_chars c)
              (State 0 0 seen file) (call_dataset c) ++ []))
    /\ file_handle st
       = file ++ map entry (written_texts
           (journal lower (call_field c) (call_max_chars c)
              (State 0 0 seen file) (call_dataset c) ++ []))).
  { by rewrite app_nil_r. }
  destruct ex; simpl; [| |exact Hstop].
  all: destruct (IH (seen_hashes st) (file_handle st)
                    (tw + written st) (tk + kept st)) as (Hd' & Hs' & Hf').
  all: split; [apply dedup_from_app; [done|by rewrite <- Hs]|].
  all: rewrite Hs', Hf', written_fingerprints_app, written_texts_app, Hs, Hf.
  all: rewrite map_app, app_assoc, list_to_set_app_L.
  all: split; [set_solver|done].
Qed.

(** A fingerprint in the set is never written again. *)
Lemma dedup_from_seen seen jl h :
  dedup_from lower seen jl -> h ∈ seen ->
  forall j v b, jl !! j = Some (v, b) -> fingerprint lower v = Some h ->
    b = false.
Proof.
  intros Hd. induction Hd as [seen|seen v jl Hnot Hd IH|seen v h' jl Hp Hh Hin Hd IH];
    intros Hseen j v2 b2 Hj Hfp.
  - done.
  - destruct j as [|j]; simpl in Hj; [by simplify_eq|]. by eapply IH.
  - destruct j as [|j]; simpl in Hj.
    + simplify_eq. done.
    + eapply IH; [set_solver|done..].
Qed.

(** After a record that passes the filters, its fingerprint is in the set. *)
Lemma dedup_from_later seen jl :
  dedup_from lower seen jl ->
  forall i j v1 b1 v2 b2 h,
    jl !! i = Some (v1, b1) -> jl !! j = Some (v2, b2) -> (i < j)%nat ->
    passes v1 = true ->
    fingerprint lower v1 = Some h -> fingerprint lower v2 = Some h ->
    b2 = false.
Proof.
  intros Hd. induction Hd as [seen|seen v jl Hnot Hd IH|seen v h' jl Hp Hh Hin Hd IH];
    intros i j v1 b1 v2 b2 h Hi Hj Hlt Hp1 Hf1 Hf2.
  - done.
  - destruct j as [|j]; [lia|]. simpl in Hj.
    destruct i as [|i]; simpl in Hi.
    + simplify_eq. eapply (dedup_from_seen seen jl h); [done| |done..].
      destruct (decide (h ∈ seen)) as [|Hnin]; [done|].
      exfalso. apply Hnot. eauto.
    + eapply (IH i j); try done. lia.
  - destruct j as [|j]; [lia|]. simpl in Hj.
    destruct i as [|i]; simpl in Hi.
    + simplify_eq.
      eapply (dedup_from_seen _ jl h'); [exact Hd|set_solver|exact Hj|exact Hf2].
    + eapply (IH i j); try done. lia.
Qed.

Lemma dedup_from_written seen jl :
  dedup_from lower seen jl ->
  forall i v, jl !! i = Some (v, true) ->
    passes v = true /\ is_Some (fingerprint lower v).
Proof.
  intros Hd. induction Hd as [seen|seen v jl Hnot Hd IH|seen v h' jl Hp Hh Hin Hd IH];
    intros i v1 Hi; [done|..]; destruct i as [|i]; simpl in Hi;
    simplify_eq; eauto.
Qed.

(** A record that passes the filters is written when nothing written before
    it had its fingerprint. *)
Lemma dedup_from_first seen jl :
  dedup_from lower seen jl ->
  forall i v b h,
    jl !! i = Some (v, b) ->
    passes v = true -> fingerprint lower v = Some h -> h ∉ seen ->
    (forall k v', (k < i)%nat -> jl !! k = Some (v', true) ->
                  fingerprint lower v' <> Some h) ->
    b = true.
Proof.
  intros Hd. induction Hd as [seen|seen v jl Hnot Hd IH|seen v h' jl Hp Hh Hin Hd IH];
    intros i v1 b1 h Hi Hp1 Hf1 Hnin Hbefore; [done|..].
  - destruct i as [|i]; simpl in Hi.
    + simplify_eq. exfalso. apply Hnot. eauto.
    + eapply (IH i); try done.
      intros k v' Hk Hjk. apply (Hbefore (S k) v'); [lia|done].
  - destruct i as [|i]; simpl in Hi; [by simplify_eq|].
    eapply (IH i); try done.
    + assert (h' <> h).
      { intros ->. by apply (Hbefore 0%nat v); [lia| |]. }
      set_solver.
    + intros k v' Hk Hjk. apply (Hbefore (S k) v'); [lia|done].
Qed.

End JournalFacts.

(** ** Claims about one record *)

(** C7.  A record that is skipped, for a missing field, a text that is empty
    once stripped, a length outside the window or a fingerprint already
    seen, leaves the file, both counters and the set as they were and raises
    nothing: the iteration ends in [continue] with the state it started
    from.  The record whose text is three spaces, a newline and two spaces
    is such a record and does not increment [kept]. *)
Theorem skipped_record_changes_nothing
    (lower : str -> str) (field : string) (max_chars : Z) (st : state)
    (example : gmap string value) :
  skippable lower field (seen_hashes st) example
  \/ get example field = PyStr whitespace_only ->
  loop_body lower field max_chars st example = (st, Skip).
Proof.
  intros [Hskip|Hws]; apply loop_body_skip; [done|].
  by apply skip_empty with whitespace_only.
Qed.

(** C5.  The length test is inclusive at 50 and at 50000 and counts
    characters: whatever the bytes of its encoding, a cleaned text of 49 or
    of 50001 characters is skipped, and one of 50 or of 50000 characters,
    with a new fingerprint, is written and counted. *)
Theorem length_window_inclusive
    (lower : str -> str) (field : string) (max_chars : Z) (st : state)
    (example : gmap string value) (raw : str) :
  get example field = PyStr raw ->
  (len (clean raw) = 49 \/ len (clean raw) = 50001 ->
   loop_body lower field max_chars st example = (st, Skip))
  /\ (len (clean raw) = 50 \/ len (clean raw) = 50000 ->
      forall h b,
        hash_text (normalize lower (clean raw)) = Some h ->
        h ∉ seen_hashes st ->
        encode (clean raw) = Some b ->
        (loop_body lower field max_chars st example).1
        = State (written st + len b) (kept st + 1) ({[h]} ∪ seen_hashes st)
                (file_handle st ++ [entry (clean raw)])).
Proof.
  intros Hget. split.
  - intros Hlen. apply loop_body_skip. apply skip_window with raw; [done|].
    unfold MIN_CHARS, MAX_CHARS. lia.
  - intros Hlen h b Hh Hseen Hb.
    rewrite (loop_body_keep lower field max_chars st example raw h b); try done.
    apply in_window_true. unfold MIN_CHARS, MAX_CHARS. split; [|lia].
    intros Hnil. rewrite Hnil in Hlen. unfold len in Hlen. simpl in Hlen. lia.
Qed.

(** C3, as the code has it.  When a record is accepted, the running total
    grows by the UTF-8 length of the accepted text alone; the entry written
    to the file is that text and a newline, one byte longer. *)
Theorem written_adds_encoded_text_length
    (lower : str -> str) (field : string) (max_chars : Z) (st st' : state)
    (fl : flow) (example : gmap string value) :
  loop_body lower field max_chars st example = (st', fl) ->
  kept st' = kept st + 1 ->
  exists raw b,
    get example field = PyStr raw
    /\ file_handle st' = file_handle st ++ [entry (clean raw)]
    /\ encode (clean raw) = Some b
    /\ encode (entry (clean raw)) = Some (b ++ [10])
    /\ written st' = written st + len b.
Proof.
  intros Heq Hkept. apply loop_body_inv in Heq.
  inversion Heq; subst; simpl in Hkept; try lia.
  exists raw, b. simpl. eauto 10 using encode_entry.
Qed.

(** ** Claims about one call *)

(** C9.  The set of fingerprints only grows: it is a superset of its former
    value after every record, after every call and after every run, however
    they end. *)
Theorem seen_hashes_monotone (lower : str -> str) :
  (forall field max_chars st example,
     seen_hashes st
     ⊆ seen_hashes (loop_body lower field max_chars st example).1)
  /\ (forall dataset field file max_chars seen,
        seen ⊆ (write_streaming_dataset lower dataset field file max_chars seen).1.1)
  /\ (forall calls seen file total_written total_kept,
        seen ⊆ (run lower calls seen file total_written total_kept).1.1).
Proof.
  assert (Hcall : forall dataset field file max_chars seen,
    seen ⊆ (write_streaming_dataset lower dataset field file max_chars seen).1.1).
  { intros. rewrite write_streaming_dataset_unfold. simpl.
    apply (for_loop_seen_mono lower field max_chars dataset
             (State 0 0 seen file)). }
  split; [|split; [done|]].
  - intros field max_chars st example.
    apply loop_body_seen_mono.
  - intros calls. induction calls as [|c calls IH]; intros; simpl; [done|].
    pose proof (Hcall (call_dataset c) (call_field c) file (call_max_chars c) seen) as Hc.
    destruct (write_streaming_dataset lower (call_dataset c) (call_field c) file
                (call_max_chars c) seen) as [[seen' file'] [[w k]|]]; simpl in *.
    + etrans; [exact Hc|apply IH].
    + done.
Qed.

(** C10.  A call whose records can all be encoded returns; and whenever a
    call returns [(written, kept)], it appended exactly [kept] entries to
    the file, each ending in a newline, and added exactly [kept]
    fingerprints to the set. *)
Theorem kept_counts_entries_and_fingerprints
    (lower : str -> str) (dataset : list (gmap string value)) (field : string)
    (file : list str) (max_chars : Z) (seen seen' : gset str)
    (file' : list str) (ret : option (Z * Z)) :
  write_streaming_dataset lower dataset field file max_chars seen
  = (seen', file', ret) ->
  (Forall (well_encoded lower field) dataset -> is_Some ret)
  /\ (forall w k,
        ret = Some (w, k) ->
        exists new,
          file' = file ++ new
          /\ Z.of_nat (length new) = k
          /\ Forall (fun e => exists text, e = entry text) new
          /\ seen ⊆ seen'
          /\ Z.of_nat (size seen') = Z.of_nat (size seen) + k).
Proof.
  rewrite write_streaming_dataset_unfold. simpl. intros Heq.
  pose proof (for_loop_no_raise lower field max_chars dataset
                (State 0 0 seen file)) as Hnr.
  pose proof (for_loop_counts lower field max_chars dataset
                (State 0 0 seen file)) as Hc.
  pose proof (for_loop_seen_mono lower field max_chars dataset
                (State 0 0 seen file)) as Hm.
  destruct (for_loop lower field max_chars (State 0 0 seen file) dataset)
    as [st ex].
  simpl in *. simplify_eq. split.
  - intros Hall. specialize (Hnr Hall). by destruct ex.
  - intros w k Hret.
    destruct Hc as (new & Hf & Hl & Hent & Hsz); [by destruct ex|].
    exists new. destruct ex; simplify_eq; repeat split; try done; lia.
Qed.

(** C4.  Once a call has accepted a record and its running total has
    reached the quota, it writes nothing more: whatever records follow in
    the dataset, the set, the file and the returned pair are the same. *)
Theorem no_write_after_quota
    (lower : str -> str) (pre post : list (gmap string value)) (field : string)
    (file : list str) (max_chars : Z) (seen seen' : gset str)
    (file' : list str) (w k : Z) :
  write_streaming_dataset lower pre field file max_chars seen
  = (seen', file', Some (w, k)) ->
  1 <= k ->
  max_chars <= w ->
  write_streaming_dataset lower (pre ++ post) field file max_chars seen
  = (seen', file', Some (w, k)).
Proof.
  intros Hpre Hk Hw.
  apply write_streaming_dataset_inv in Hpre as (ex & Hloop & Hex).
  pose proof (for_loop_below_quota lower field max_chars pre
                (State 0 0 seen file) eq_refl) as Hq.
  rewrite write_streaming_dataset_unfold, for_loop_app, Hloop.
  rewrite Hloop in Hq. simpl in Hq.
  destruct ex; [|done..]. destruct Hq; [done|lia|lia].
Qed.

(** C2, as the code has it.  The quota is tested after each accepted write,
    so the returned total may pass it, by less than the encoded length of
    the last accepted text: before that write the total was zero or below
    the quota.  With a quota of zero the call writes at most one entry. *)
Theorem quota_overshoot_bound
    (lower : str -> str) (dataset : list (gmap string value)) (field : string)
    (file : list str) (max_chars : Z) (seen seen' : gset str)
    (file' : list str) (w k : Z) :
  0 <= max_chars ->
  write_streaming_dataset lower dataset field file max_chars seen
  = (seen', file', Some (w, k)) ->
  ((k = 0 /\ w = 0 /\ file' = file)
   \/ exists text b,
        last file' = Some (entry text)
        /\ encode text = Some b
        /\ 0 <= w - len b <= Z.max (max_chars - 1) 0)
  /\ (max_chars = 0 -> k <= 1).
Proof.
  intros Hmax Hcall.
  apply write_streaming_dataset_inv in Hcall as (ex & Hloop & Hex).
  pose proof (for_loop_overshoot lower field max_chars dataset seen file) as Ho.
  rewrite Hloop in Ho. simpl in Ho. destruct (Ho Hex) as [H1 H2].
  split; [done|]. intros ->. by apply H2.
Qed.

(** C6.  What a call appends to the file is, for some of the records of its
    dataset and in their order, the text of the record, stripped and with
    every carriage return and newline pair replaced by a newline, in its
    original case, followed by one newline; the text itself does not end in
    white space.  The normalized text only goes through [hash_text] into
    the set. *)
Theorem entries_are_cleaned_texts
    (lower : str -> str) (dataset : list (gmap string value)) (field : string)
    (file : list str) (max_chars : Z) (seen : gset str) :
  exists texts hs,
    (write_streaming_dataset lower dataset field file max_chars seen).1.2
    = file ++ map (fun text => text ++ [LF]) texts
    /\ (write_streaming_dataset lower dataset field file max_chars seen).1.1
       = seen ∪ list_to_set hs
    /\ Forall2 (fun text h => hash_text (lower (strip text)) = Some h) texts hs
    /\ Forall (fun text =>
                (exists example raw,
                   example ∈ dataset
                   /\ get example field = PyStr raw
                   /\ text = replace_crlf (strip raw))
                /\ (forall c, last text = Some c -> isspace c = false))
              texts.
Proof.
  rewrite write_streaming_dataset_unfold. simpl.
  destruct (for_loop_entries lower field max_chars dataset
              (State 0 0 seen file)) as (texts & hs & Hf & Hs & Hh & Hfrom).
  exists texts, hs. repeat split; try done.
  eapply Forall_impl; [exact Hfrom|].
  intros text (example & raw & Hin & Hget & ->).
  split; [by exists example, raw|]. apply clean_last.
Qed.

(** C8.  In a call without duplicates and without truncation, that is when
    the accepted texts have distinct fingerprints that are not in the set
    yet and their bytes stay below the quota, the file receives the
    accepted texts of the dataset, all of them and in the order of the
    dataset. *)
Theorem order_preserved
    (lower : str -> str) (dataset : list (gmap string value)) (field : string)
    (file : list str) (max_chars : Z) (seen : gset str)
    (hs : list str) (n : Z) :
  Forall2 (fun text h => hash_text (normalize lower text) = Some h)
          (accepted_texts field dataset) hs ->
  NoDup hs ->
  (forall h, h ∈ hs -> h ∉ seen) ->
  total_bytes (accepted_texts field dataset) = Some n ->
  n < max_chars ->
  write_streaming_dataset lower dataset field file max_chars seen
  = (seen ∪ list_to_set hs,
     file ++ map entry (accepted_texts field dataset),
     Some (n, Z.of_nat (length (accepted_texts field dataset)))).
Proof.
  intros Hfp Hnd Hfresh Htot Hq.
  rewrite write_streaming_dataset_unfold.
  rewrite (for_loop_order lower field max_chars dataset
             (State 0 0 seen file) hs n); done.
Qed.

(** ** Claims about a run *)

(** C1, as the code has it.  The file of a run holds the texts the journal
    marks written.  Of two records pulled during a run whose normalized
    texts are the same, at most one is written, and only a record that
    passes the filters is; once one of them passes the filters and has a
    fingerprint, no later one is written; and it is itself written when
    nothing written before it had that fingerprint.  Records that fail the
    filters, or that are never pulled because their call stopped, are not
    written, so that none of the two may be. *)
Theorem dedup_at_most_one_first_valid
    (lower : str -> str) (calls : list call) :
  (run lower calls ∅ [] 0 0).1.2
  = map entry (written_texts (run_journal lower calls ∅ []))
  /\ forall i j v1 b1 v2 b2 n,
       run_journal lower calls ∅ [] !! i = Some (v1, b1) ->
       run_journal lower calls ∅ [] !! j = Some (v2, b2) ->
       (i < j)%nat ->
       key lower v1 = Some n ->
       key lower v2 = Some n ->
       ~ (b1 = true /\ b2 = true)
       /\ (b1 = true -> passes v1 = true)
       /\ (b2 = true -> passes v2 = true)
       /\ (passes v1 = true -> is_Some (hash_text n) -> b2 = false)
       /\ (passes v1 = true ->
           forall h,
             hash_text n = Some h ->
             (forall k v, (k < i)%nat ->
                run_journal lower calls ∅ [] !! k = Some (v, true) ->
                fingerprint lower v <> Some h) ->
             b1 = true).
Proof.
  destruct (run_journal_sound lower calls ∅ [] 0 0) as (Hd & _ & Hf).
  set (jl := run_journal lower calls ∅ []) in *. split; [exact Hf|].
  intros i j v1 b1 v2 b2 n Hi Hj Hlt Hk1 Hk2.
  assert (Hfp1 : fingerprint lower v1 = hash_text n)
    by (unfold fingerprint; by rewrite Hk1).
  assert (Hfp2 : fingerprint lower v2 = hash_text n)
    by (unfold fingerprint; by rewrite Hk2).
  assert (Hlater : passes v1 = true -> is_Some (hash_text n) -> b2 = false).
  { intros Hp [h Hh].
    eapply (dedup_from_later lower ∅ jl Hd i j v1 b1 v2 b2 h); try done;
      congruence. }
  assert (Hw1 : b1 = true -> passes v1 = true /\ is_Some (hash_text n)).
  { intros ->. rewrite <- Hfp1. by eapply dedup_from_written. }
  assert (Hw2 : b2 = true -> passes v2 = true /\ is_Some (hash_text n)).
  { intros ->. rewrite <- Hfp2. by eapply dedup_from_written. }
  split; [|split; [|split; [|split]]].
  - intros [Hb1 Hb2]. destruct (Hw1 Hb1) as [Hp Hs].
    specialize (Hlater Hp Hs). congruence.
  - intros Hb1. by destruct (Hw1 Hb1).
  - intros Hb2. by destruct (Hw2 Hb2).
  - exact Hlater.
  - intros Hp h Hh Hbefore.
    apply (dedup_from_first lower ∅ jl Hd i v1 b1 h Hi Hp);
      [congruence|set_solver|exact Hbefore].
Qed.

(** ** The claims at sample inputs *)

Lemma skipped_record_changes_nothing_witness :
  loop_body ascii_lower "text" 1000 fresh (row "text" whitespace_only)
  = (fresh, Skip)
  /\ loop_body ascii_lower "text" 1000 kept_snippet (row "text" SNIPPET)
     = (kept_snippet, Skip).
Proof.
  split; apply skipped_record_changes_nothing.
  - right. vm_compute. reflexivity.
  - left. apply skip_duplicate with (raw := SNIPPET) (h := h_snippet).
    + vm_compute. reflexivity.
    + vm_compute. reflexivity.
    + unfold kept_snippet. simpl. apply elem_of_singleton_2. reflexivity.
Defined.


Lemma length_window_inclusive_witness :
  (len <$> encode (accented 49) = Some 98
   /\ loop_body ascii_lower "text" 1000 fresh (probe 49) = (fresh, Skip))
  /\ loop_body ascii_lower "text" 1000 fresh (probe 50001) = (fresh, Skip)
  /\ kept (loop_body ascii_lower "text" 1000 fresh (probe 50)).1 = 1
  /\ (len <$> encode (accented 50000) = Some 100000
      /\ kept (loop_body ascii_lower "text" 1000 fresh (probe 50000)).1 = 1).
Proof.
  assert (Hget : forall n, get (probe n) "text" = PyStr (accented n))
    by (intros n; reflexivity).
  assert (Hkeep : forall n,
    len (clean (accented n)) = 50 \/ len (clean (accented n)) = 50000 ->
    is_Some (encode (clean (accented n))) ->
    is_Some (encode (normalize ascii_lower (clean (accented n)))) ->
    kept (loop_body ascii_lower "text" 1000 fresh (probe n)).1 = 1).
  { intros n Hlen [b Hb] [b' Hn].
    rewrite (proj2 (length_window_inclusive ascii_lower "text" 1000 fresh
                      (probe n) (accented n) (Hget n)) Hlen
                   (Sha1.hexdigest b') b).
    - reflexivity.
    - unfold hash_text. rewrite Hn. reflexivity.
    - apply not_elem_of_empty.
    - exact Hb. }
  split; [split|split; [|split; [|split]]].
  - vm_compute. reflexivity.
  - apply (proj1 (length_window_inclusive ascii_lower "text" 1000 fresh
                    (probe 49) (accented 49) (Hget 49%nat))).
    left. vm_compute. reflexivity.
  - apply (proj1 (length_window_inclusive ascii_lower "text" 1000 fresh
                    (probe 50001) (accented 50001) (Hget 50001%nat))).
    right. vm_compute. reflexivity.
  - apply Hkeep; [left; vm_compute; reflexivity|..];
      apply encode_is_Some; vm_compute; reflexivity.
  - vm_compute. reflexivity.
  - apply Hkeep; [right; vm_compute; reflexivity|..];
      apply encode_is_Some; vm_compute; reflexivity.
Defined.

(** A triple is known from its set once its file and its result are. *)
Lemma result_eta {A B C} (r : A * B * C) (b : B) (c : C) :
  r.1.2 = b -> r.2 = c -> r = (r.1.1, b, c).
Proof. destruct r as [[x y] z]. simpl. by intros -> ->. Qed.

(** C3 as stated fails: for the fifty letters of [snippet] the file receives
    fifty-one bytes and the running total grows by fifty. *)
Lemma written_excludes_newline :
  kept step_snippet.1 = kept fresh + 1
  /\ file_handle step_snippet.1 = [snippet ++ [LF]]
  /\ len <$> encode (snippet ++ [LF]) = Some 51
  /\ written step_snippet.1 = written fresh + 50.
Proof. vm_compute. by repeat split. Qed.

Lemma written_adds_encoded_text_length_witness :
  exists raw b,
    get (row "content" snippet) "content" = PyStr raw
    /\ file_handle step_snippet.1 = file_handle fresh ++ [entry (clean raw)]
    /\ encode (clean raw) = Some b
    /\ encode (entry (clean raw)) = Some (b ++ [10])
    /\ written step_snippet.1 = written fresh + len b.
Proof.
  apply (written_adds_encoded_text_length ascii_lower "content" 1000
           fresh step_snippet.1 step_snippet.2 (row "content" snippet)).
  - symmetry. apply surjective_pairing.
  - vm_compute. reflexivity.
Defined.

Lemma kept_counts_entries_and_fingerprints_witness :
  is_Some (Some (111, 2))
  /\ exists new,
       [snippet ++ [LF]; other ++ [LF]] = [] ++ new
       /\ Z.of_nat (length new) = 2
       /\ Forall (fun e => exists text, e = entry text) new
       /\ ∅ ⊆ call_samples.1.1
       /\ Z.of_nat (size call_samples.1.1)
          = Z.of_nat (size (∅ : gset str)) + 2.
Proof.
  assert (Hcall :
    call_samples
    = (call_samples.1.1, [snippet ++ [LF]; other ++ [LF]], Some (111, 2)))
    by (apply result_eta; vm_compute; reflexivity).
  destruct (kept_counts_entries_and_fingerprints ascii_lower samples "content"
              [] 1000 ∅ _ _ _ Hcall) as [Hret Hcount].
  split.
  - apply Hret. unfold samples, well_encoded.
    repeat constructor; vm_compute; eexists; reflexivity.
  - apply (Hcount 111 2 eq_refl).
Defined.

Lemma no_write_after_quota_witness :
  write_streaming_dataset ascii_lower
    ([row "content" snippet] ++ [row "content" other]) "content" [] 50 ∅
  = ((write_streaming_dataset ascii_lower
        [row "content" snippet] "content" [] 50 ∅).1.1,
     [snippet ++ [LF]], Some (50, 1)).
Proof.
  apply no_write_after_quota.
  - apply result_eta; vm_compute; reflexivity.
  - lia.
  - lia.
Defined.

(** C2 as stated fails: with a quota of zero the call writes the first
    record it accepts and returns fifty. *)
Lemma quota_zero_still_writes :
  call_quota_zero.1.2 = [snippet ++ [LF]]
  /\ call_quota_zero.2 = Some (50, 1)
  /\ ~ (50 <= 0).
Proof. vm_compute. by repeat split. Qed.

Lemma quota_overshoot_bound_witness :
  (((1 = 0 /\ 50 = 0 /\ [snippet ++ [LF]] = [])
    \/ exists text b,
         last [snippet ++ [LF]] = Some (entry text)
         /\ encode text = Some b
         /\ 0 <= 50 - len b <= Z.max (0 - 1) 0)
   /\ (0 = 0 -> 1 <= 1)).
Proof.
  apply (quota_overshoot_bound ascii_lower
           [row "content" snippet; row "content" other] "content" [] 0 ∅
           call_quota_zero.1.1 [snippet ++ [LF]] 50 1).
  - lia.
  - apply (result_eta call_quota_zero); vm_compute; reflexivity.
Defined.

Lemma order_preserved_witness :
  write_streaming_dataset ascii_lower distinct_samples "content" [] 1000 ∅
  = (∅ ∪ list_to_set [h_snippet; h_other],
     [] ++ map entry (accepted_texts "content" distinct_samples),
     Some (111, Z.of_nat (length (accepted_texts "content" distinct_samples)))).
Proof.
  assert (Hacc : accepted_texts "content" distinct_samples = [snippet; other])
    by (vm_compute; reflexivity).
  apply order_preserved.
  - rewrite Hacc.
    constructor; [vm_compute; reflexivity|].
    constructor; [vm_compute; reflexivity|].
    constructor.
  - apply NoDup_cons. split; [|apply NoDup_singleton].
    rewrite list_elem_of_singleton. vm_compute. discriminate.
  - intros h _. apply not_elem_of_empty.
  - rewrite Hacc. vm_compute. reflexivity.
  - lia.
Defined.

(** C1 as stated fails: two records with the same text, too short for the
    filter, and neither is written. *)
Lemma dedup_exactly_one_fails :
  key ascii_lower (get (row "content" short) "content") = Some short
  /\ run_journal ascii_lower [Call short_twice "content" 1000] ∅ []
     = [(PyStr short, false); (PyStr short, false)]
  /\ call_short_twice.1.2 = []
  /\ call_short_twice.2 = Some (0, 0).
Proof. vm_compute. by repeat split. Qed.

Lemma dedup_at_most_one_first_valid_witness :
  run_journal ascii_lower two_calls ∅ []
  = [(PyStr snippet, true); (PyStr short, false);
     (PyStr SNIPPET, false); (PyStr other, true)]
  /\ (run ascii_lower two_calls ∅ [] 0 0).1.2
     = map entry (written_texts (run_journal ascii_lower two_calls ∅ []))
  /\ ~ (true = true /\ false = true)
  /\ (true = true -> passes (PyStr snippet) = true)
  /\ (false = true -> passes (PyStr SNIPPET) = true)
  /\ (passes (PyStr snippet) = true -> is_Some (hash_text snippet) ->
      false = false)
  /\ (passes (PyStr snippet) = true ->
      forall h,
        hash_text snippet = Some h ->
        (forall k v, (k < 0)%nat ->
           run_journal ascii_lower two_calls ∅ [] !! k = Some (v, true) ->
           fingerprint ascii_lower v <> Some h) ->
        true = true).
Proof.
  split; [vm_compute; reflexivity|].
  destruct (dedup_at_most_one_first_valid ascii_lower two_calls) as [Hfile Hpair].
  split; [exact Hfile|].
  apply (Hpair 0%nat 2%nat (PyStr snippet) true (PyStr SNIPPET) false snippet).
  - vm_compute. reflexivity.
  - vm_compute. reflexivity.
  - lia.
  - vm_compute. reflexivity.
  - vm_compute. reflexivity.
Defined.

Lemma entries_are_cleaned_texts_witness :
  exists texts hs,
    call_samples.1.2 = [] ++ map (fun text => text ++ [LF]) texts
    /\ call_samples.1.1 = ∅ ∪ list_to_set hs
    /\ Forall2 (fun text h => hash_text (ascii_lower (strip text)) = Some h)
               texts hs
    /\ Forall (fun text =>
                (exists example raw,
                   example ∈ samples
                   /\ get example "content" = PyStr raw
                   /\ text = replace_crlf (strip raw))
                /\ (forall c, last text = Some c -> isspace c = false))
              texts.
Proof.
  unfold call_samples.
  exact (entries_are_cleaned_texts ascii_lower samples "content" [] 1000 ∅).
Defined.

Lemma seen_hashes_monotone_witness :
  seen_hashes kept_snippet
  ⊆ seen_hashes (loop_body ascii_lower "content" 1000 kept_snippet
                   (row "content" other)).1.
Proof.
  apply (proj1 (seen_hashes_monotone ascii_lower) "content" 1000 kept_snippet
           (row "content" other)).
Defined.

(** ** Further properties of the text functions *)

Section MoreTextFacts.

Lemma lstrip_head s c s' : lstrip s = c :: s' -> isspace c = false.
Proof.
  induction s as [|d s IH]; simpl; [done|].
  destruct (isspace d) eqn:Hd; [done|]. intros ?. by simplify_eq.
Qed.

Lemma lstrip_empty s : lstrip s = [] <-> forallb isspace s = true.
Proof.
  induction s as [|c s IH]; simpl; [done|].
  destruct (isspace c); simpl; [done|]. split; done.
Qed.

Lemma rstrip_empty s : rstrip s = [] <-> forallb isspace s = true.
Proof.
  induction s as [|c s IH]; simpl; [done|].
  destruct (rstrip s) as [|d r] eqn:Hr.
  - destruct (isspace c); simpl; [tauto|]. split; done.
  - split; [done|]. intros [_ Hs]%andb_true_iff. apply IH in Hs. done.
Qed.

Lemma rstrip_cons_keep c s :
  isspace c = false -> exists r, rstrip (c :: s) = c :: r.
Proof.
  intros Hc. simpl. destruct (rstrip s) as [|d r]; [|by eexists].
  rewrite Hc. by eexists.
Qed.

Lemma lstrip_fixed s :
  (forall c, head s = Some c -> isspace c = false) -> lstrip s = s.
Proof.
  destruct s as [|c s]; simpl; [done|]. intros H. by rewrite (H c eq_refl).
Qed.

Lemma rstrip_fixed s :
  (forall c, last s = Some c -> isspace c = false) -> rstrip s = s.
Proof.
  induction s as [|c s IH]; intros H; simpl; [done|].
  destruct s as [|d s].
  - simpl. by rewrite (H c eq_refl).
  - rewrite IH; [done|]. intros e He. apply H. by rewrite last_cons_cons.
Qed.

Lemma strip_head s c : head (strip s) = Some c -> isspace c = false.
Proof.
  unfold strip. destruct (lstrip s) as [|d x] eqn:Hl; [done|].
  pose proof (lstrip_head _ _ _ Hl) as Hd.
  destruct (rstrip_cons_keep d x Hd) as [r ->]. simpl.
  intros ?. by simplify_eq.
Qed.

Lemma replace_crlf_head s c :
  head s = Some c -> c <> CR -> head (replace_crlf s) = Some c.
Proof.
  destruct s as [|a [|d rest]]; simpl; try done.
  intros ? Hc. simplify_eq.
  replace (c =? CR) with false by (symmetry; by apply Z.eqb_neq). done.
Qed.

Lemma clean_head raw c : head (clean raw) = Some c -> isspace c = false.
Proof.
  unfold clean. intros Hhead.
  destruct (head (strip raw)) as [d|] eqn:Hd.
  - pose proof (strip_head _ _ Hd) as Hsp.
    rewrite (replace_crlf_head (strip raw) d) in Hhead; [by simplify_eq|done|].
    intros ->. done.
  - apply head_None in Hd. by rewrite Hd in Hhead.
Qed.

Lemma replace_crlf_empty s : replace_crlf s = [] <-> s = [].
Proof.
  destruct s as [|a [|d rest]]; simpl; try done.
  by destruct ((a =? CR) && (d =? LF)).
Qed.

Lemma encode_char_length c b :
  encode_char c = Some b -> (1 <= length b <= 4)%nat.
Proof.
  unfold encode_char. intros H.
  repeat (destruct (_ : bool) in H; try done; simplify_eq; simpl; try lia).
Qed.

Lemma encode_char_None c :
  encode_char c = None <-> c < 0 \/ 55296 <= c <= 57343 \/ 1114112 <= c.
Proof.
  unfold encode_char.
  destruct (c <? 0) eqn:H0; [apply Z.ltb_lt in H0; split; [lia|done]|].
  apply Z.ltb_ge in H0.
  destruct (c <? 128) eqn:H1; [apply Z.ltb_lt in H1; split; [done|lia]|].
  apply Z.ltb_ge in H1.
  destruct (c <? 2048) eqn:H2; [apply Z.ltb_lt in H2; split; [done|lia]|].
  apply Z.ltb_ge in H2.
  destruct ((55296 <=? c) && (c <=? 57343)) eqn:H3.
  { apply andb_true_iff in H3 as [?%Z.leb_le ?%Z.leb_le]. split; [lia|done]. }
  apply andb_false_iff in H3.
  destruct (c <? 65536) eqn:H4.
  { apply Z.ltb_lt in H4. split; [done|].
    destruct H3 as [?%Z.leb_gt|?%Z.leb_gt]; lia. }
  apply Z.ltb_ge in H4.
  destruct (c <? 1114112) eqn:H5; [apply Z.ltb_lt in H5; split; [done|lia]|].
  apply Z.ltb_ge in H5. split; [lia|done].
Qed.

Lemma encode_None s :
  encode s = None <->
  Exists (fun c => c < 0 \/ 55296 <= c <= 57343 \/ 1114112 <= c) s.
Proof.
  induction s as [|c s IH]; simpl.
  - split; [done|]. intros H. inversion H.
  - rewrite Exists_cons, <- IH, <- encode_char_None.
    destruct (encode_char c) as [b|]; simpl; [|tauto].
    destruct (encode s) as [bs|]; simpl; split; try done; try tauto.
    intros [|]; done.
Qed.

Lemma encode_length_nat s b :
  encode s = Some b -> (length s <= length b <= 4 * length s)%nat.
Proof.
  revert b. induction s as [|c s IH]; intros b.
  - simpl. intros ?. simplify_eq. simpl. lia.
  - cbn [encode]. destruct (encode_char c) as [bc|] eqn:Hc; [|done].
    destruct (encode s) as [bs|]; [|done]. simpl. intros ?. simplify_eq.
    apply encode_char_length in Hc. specialize (IH bs eq_refl).
    rewrite length_app. lia.
Qed.

Lemma encode_length s b :
  encode s = Some b -> len s <= len b <= 4 * len s.
Proof. intros H%encode_length_nat. unfold len, str, bytes, char in *. lia. Qed.

Lemma land_15_range x : 0 <= Z.land x 15 < 16.
Proof.
  change 15 with (Z.ones 4). rewrite Z.land_ones by lia.
  apply Z.mod_pos_bound. lia.
Qed.

Lemma hex_digit_range d :
  0 <= d < 16 ->
  48 <= Sha1.hex_digit d <= 57 \/ 97 <= Sha1.hex_digit d <= 102.
Proof.
  intros Hd. unfold Sha1.hex_digit.
  destruct (d <? 10) eqn:H; [apply Z.ltb_lt in H|apply Z.ltb_ge in H]; lia.
Qed.

Lemma hex32_digits x :
  length (Sha1.hex32 x) = 8%nat
  /\ Forall (fun c => 48 <= c <= 57 \/ 97 <= c <= 102) (Sha1.hex32 x).
Proof.
  unfold Sha1.hex32. split; [by rewrite length_map|].
  apply Forall_map, Forall_forall. intros i _. simpl.
  apply hex_digit_range, land_15_range.
Qed.

Lemma strip_clean raw : strip (clean raw) = clean raw.
Proof.
  unfold strip. rewrite lstrip_fixed by apply clean_head.
  apply rstrip_fixed, clean_last.
Qed.

Lemma total_bytes_snoc texts text n b :
  total_bytes texts = Some n -> encode text = Some b ->
  total_bytes (texts ++ [text]) = Some (n + len b).
Proof.
  revert n. induction texts as [|t texts IH]; intros n; simpl.
  - intros ? ->. simplify_eq. simpl. f_equal. lia.
  - destruct (encode t) as [bt|]; [|done]. simpl.
    destruct (total_bytes texts) as [m|]; [|done]. simpl.
    intros ? Hb. simplify_eq. rewrite (IH m eq_refl Hb). simpl. f_equal. lia.
Qed.

Lemma total_bytes_app texts1 texts2 n1 n2 :
  total_bytes texts1 = Some n1 -> total_bytes texts2 = Some n2 ->
  total_bytes (texts1 ++ texts2) = Some (n1 + n2).
Proof.
  revert n1. induction texts1 as [|t texts1 IH]; intros n1; simpl.
  - intros ? ->. by simplify_eq.
  - destruct (encode t) as [bt|]; [|done]. simpl.
    destruct (total_bytes texts1) as [m|]; [|done]. simpl.
    intros ? H2. simplify_eq. rewrite (IH m eq_refl H2). simpl. f_equal. lia.
Qed.

Lemma total_bytes_entries texts n :
  total_bytes texts = Some n ->
  total_bytes (map entry texts) = Some (n + Z.of_nat (length texts)).
Proof.
  revert n. induction texts as [|t texts IH]; intros n.
  - simpl. intros ?. by simplify_eq.
  - cbn [total_bytes map]. destruct (encode t) as [bt|] eqn:Hb; [|done].
    rewrite (encode_entry t bt Hb). cbn [mbind option_bind].
    destruct (total_bytes texts) as [m|]; [|done].
    rewrite (IH m eq_refl). cbn [mbind option_bind]. intros ?. simplify_eq.
    f_equal. unfold len. rewrite length_app. simpl length.
    unfold str, bytes, char in *. lia.
Qed.

End MoreTextFacts.

(** X1.  The text that line 37 hands to [normalize] is already stripped:
    it has no white space at either end, so the [strip] of line 14 leaves it
    as it is and the fingerprint is that of the lower-cased text. *)
Theorem normalize_of_clean_text (lower : str -> str) (raw : str) :
  strip (clean raw) = clean raw
  /\ normalize lower (clean raw) = lower (clean raw)
  /\ hash_text (normalize lower (clean raw)) = hash_text (lower (clean raw)).
Proof.
  pose proof (strip_clean raw) as Hs.
  unfold normalize. by rewrite Hs.
Qed.

(** X2.  The test of line 29 rejects a record exactly when its text holds
    nothing but white space: such a record, and no other that has the
    field, is skipped as empty. *)
Theorem empty_after_strip_iff_whitespace (raw : str) :
  clean raw = [] <-> forallb isspace raw = true.
Proof.
  unfold clean. rewrite replace_crlf_empty. unfold strip.
  rewrite rstrip_empty. split.
  - intros Hall. apply lstrip_empty.
    destruct (lstrip raw) as [|c x] eqn:Hl; [done|].
    apply lstrip_head in Hl. simpl in Hall. by rewrite Hl in Hall.
  - intros Hall. apply lstrip_empty in Hall. by rewrite Hall.
Qed.

(** X3.  [hash_text] raises exactly when its text holds a surrogate, or a
    value that is no code point; for every other text it returns a digest. *)
Theorem hash_text_raises_iff (text : str) :
  hash_text text = None <->
  Exists (fun c => c < 0 \/ 55296 <= c <= 57343 \/ 1114112 <= c) text.
Proof.
  rewrite <- encode_None. unfold hash_text.
  destruct (encode text); simpl; split; done.
Qed.

(** X4.  A fingerprint is a string of forty characters, each a digit or a
    letter from a to f. *)
Theorem fingerprint_is_forty_hex_digits (text h : str) :
  hash_text text = Some h ->
  len h = 40 /\ Forall (fun c => 48 <= c <= 57 \/ 97 <= c <= 102) h.
Proof.
  unfold hash_text. destruct (encode text) as [b|]; [|done]. simpl.
  intros ?. simplify_eq. unfold Sha1.hexdigest, len.
  destruct (Sha1.digest b) as [[[[h0 h1] h2] h3] h4].
  destruct (hex32_digits h0) as [L0 F0], (hex32_digits h1) as [L1 F1],
    (hex32_digits h2) as [L2 F2], (hex32_digits h3) as [L3 F3],
    (hex32_digits h4) as [L4 F4].
  split.
  - rewrite !length_app, L0, L1, L2, L3, L4. done.
  - repeat (apply Forall_app; split); done.
Qed.

(** X5.  An accepted record adds at least [MIN_CHARS] and at most four times
    [MAX_CHARS] to the running total: the UTF-8 encoding of a text has
    between one and four bytes for each character. *)
Theorem accepted_record_byte_bounds
    (lower : str -> str) (field : string) (max_chars : Z) (st st' : state)
    (fl : flow) (example : gmap string value) :
  loop_body lower field max_chars st example = (st', fl) ->
  kept st' = kept st + 1 ->
  written st + MIN_CHARS <= written st' <= written st + 4 * MAX_CHARS.
Proof.
  intros Heq Hkept. apply loop_body_inv in Heq.
  inversion Heq; subst; simpl in Hkept; try lia. simpl.
  match goal with
  | Hb : encode (clean raw) = Some b, Hw : in_window (clean raw) = true |- _ =>
      apply encode_length in Hb; apply in_window_true in Hw
  end.
  lia.
Qed.

(** ** Further properties of the loop *)

Section MoreLoopFacts.

Variable lower : str -> str.
Variable field : string.
Variable max_chars : Z.

(** A loop that returns has in [written] the bytes, and in [kept] the
    number, of the texts it appended. *)
Lemma for_loop_accounting dataset st :
  let r := for_loop lower field max_chars st dataset in
  r.2 <> Raised ->
  exists texts,
    file_handle r.1 = file_handle st ++ map entry texts
    /\ Z.of_nat (length texts) = kept r.1 - kept st
    /\ total_bytes texts = Some (written r.1 - written st).
Proof.
  set (I := fun s : state =>
    exists texts,
      file_handle s = file_handle st ++ map entry texts
      /\ Z.of_nat (length texts) = kept s - kept st
      /\ total_bytes texts = Some (written s - written st)).
  apply (for_loop_rule lower field max_chars I (fun s ex => ex <> Raised -> I s));
    [done| |].
  - intros s example s' fl (texts & Hf & Hl & Ht) Hb.
    assert (Hkeep : forall h raw b, encode (clean raw) = Some b ->
      I (State (written s + len b) (kept s + 1) ({[h]} ∪ seen_hashes s)
               (file_handle s ++ [entry (clean raw)]))).
    { intros h raw b Hb'. exists (texts ++ [clean raw]). simpl.
      rewrite Hf, map_app, <- app_assoc, length_app. simpl.
      split; [done|]. split; [lia|].
      rewrite (total_bytes_snoc texts (clean raw) _ b Ht Hb'). f_equal. lia. }
    inversion Hb; subst; try (by exists texts); try done.
    destruct (written s + len b >=? max_chars); [intros _|]; by apply Hkeep.
  - exists []. simpl. rewrite app_nil_r. repeat split; [lia|f_equal; lia].
Qed.

(** Whatever the loop appends is a text that passed the window and has no
    white space at either end. *)
Lemma for_loop_entries_window dataset st :
  exists texts,
    file_handle (for_loop lower field max_chars st dataset).1
    = file_handle st ++ map entry texts
    /\ Forall (fun text => in_window text = true /\ strip text = text) texts.
Proof.
  set (I := fun s : state =>
    exists texts,
      file_handle s = file_handle st ++ map entry texts
      /\ Forall (fun text => in_window text = true /\ strip text = text) texts).
  apply (for_loop_rule lower field max_chars I (fun s _ => I s)); [done| |].
  - intros s example s' fl (texts & Hf & Hall) Hb.
    assert (Hkeep : forall w k h raw, in_window (clean raw) = true ->
      I (State w k ({[h]} ∪ seen_hashes s)
               (file_handle s ++ [entry (clean raw)]))).
    { intros w k h raw Hw. exists (texts ++ [clean raw]). simpl.
      rewrite Hf, map_app, <- app_assoc. split; [done|].
      apply Forall_app. split; [done|].
      repeat constructor; [done|apply strip_clean]. }
    inversion Hb; subst; try (by exists texts); try (by apply Hkeep).
    destruct (written s + len b >=? max_chars); by apply Hkeep.
  - exists []. simpl. rewrite app_nil_r. by split.
Qed.

(** The counters of a loop that returns, against each other and against the
    quota. *)
Lemma for_loop_bounds dataset seen file :
  let r := for_loop lower field max_chars (State 0 0 seen file) dataset in
  r.2 <> Raised ->
  0 <= kept r.1
  /\ MIN_CHARS * kept r.1 <= written r.1 <= 4 * MAX_CHARS * kept r.1
  /\ written r.1 <= Z.max (max_chars - 1) 0 + 4 * MAX_CHARS
  /\ MIN_CHARS * (kept r.1 - 1) <= Z.max (max_chars - 1) 0.
Proof.
  set (I := fun s : state =>
    0 <= kept s
    /\ MIN_CHARS * kept s <= written s <= 4 * MAX_CHARS * kept s
    /\ (kept s = 0 \/ written s < max_chars)).
  apply (for_loop_rule lower field max_chars I (fun s ex => ex <> Raised ->
    0 <= kept s
    /\ MIN_CHARS * kept s <= written s <= 4 * MAX_CHARS * kept s
    /\ written s <= Z.max (max_chars - 1) 0 + 4 * MAX_CHARS
    /\ MIN_CHARS * (kept s - 1) <= Z.max (max_chars - 1) 0)).
  - unfold I, MIN_CHARS, MAX_CHARS. intros s (Hk & Hw & Hq) _. lia.
  - intros s example s' fl (Hk & Hw & Hq) Hb.
    inversion Hb; subst; try done.
    match goal with
    | He : encode (clean raw) = Some b, Hwin : in_window (clean raw) = true |- _ =>
        apply encode_length in He; apply in_window_true in Hwin
    end.
    unfold I, MIN_CHARS, MAX_CHARS in *.
    destruct (written s + len b >=? max_chars) eqn:Hge; simpl.
    + intros _. lia.
    + rewrite Z.geb_leb in Hge. apply Z.leb_gt in Hge. lia.
  - unfold I, MIN_CHARS, MAX_CHARS. simpl. lia.
Qed.

(** A loop in which no record passes the filters changes nothing. *)
Lemma for_loop_all_rejected dataset st :
  Forall (fun example => passes (get example field) = false) dataset ->
  for_loop lower field max_chars st dataset = (st, Exhausted).
Proof.
  induction dataset as [|example rest IH]; intros Hall; simpl; [done|].
  apply Forall_cons in Hall as [Hex Hall].
  destruct (get example field) as [|raw] eqn:Hget.
  - rewrite loop_body_missing by done. by apply IH.
  - rewrite (loop_body_reject lower field max_chars st example raw) by done.
    by apply IH.
Qed.

Lemma skippable_mono seen seen' example :
  seen ⊆ seen' ->
  skippable lower field seen example -> skippable lower field seen' example.
Proof.
  intros Hsub [Hget|raw Hget He|raw Hget Hl|raw h Hget Hh Hin].
  - by apply skip_missing.
  - by eapply skip_empty.
  - by eapply skip_window.
  - eapply skip_duplicate; [done..|]. by apply Hsub.
Qed.

(** After a loop that exhausted its dataset, every record of the dataset
    would be skipped. *)
Lemma for_loop_exhausted_skippable dataset : forall st st',
  for_loop lower field max_chars st dataset = (st', Exhausted) ->
  Forall (skippable lower field (seen_hashes st')) dataset.
Proof.
  induction dataset as [|example rest IH]; intros st st' Hloop; [constructor|].
  simpl in Hloop.
  pose proof (loop_body_spec lower field max_chars st example) as Hb.
  destruct (loop_body lower field max_chars st example) as [st1 fl].
  simpl in Hb.
  assert (Hmono : fl = Skip \/ fl = Next ->
            seen_hashes st1 ⊆ seen_hashes st'
            /\ Forall (skippable lower field (seen_hashes st')) rest).
  { intros Hfl.
    assert (Hrest : for_loop lower field max_chars st1 rest = (st', Exhausted))
      by (by destruct Hfl as [-> | ->]).
    split; [|by eapply IH].
    pose proof (for_loop_seen_mono lower field max_chars rest st1) as Hm.
    by rewrite Hrest in Hm. }
  inversion Hb; subst; try done.
  - destruct Hmono as [Hm Hr]; [by left|]. constructor; [|done].
    by apply skip_missing.
  - destruct Hmono as [Hm Hr]; [by left|]. constructor; [|done].
    match goal with
    | Hw : in_window (clean raw) = false |- _ =>
        apply in_window_false in Hw as [Hnil|Hlen]
    end.
    + by eapply skip_empty.
    + by eapply skip_window.
  - destruct Hmono as [Hm Hr]; [by left|]. constructor; [|done].
    eapply skip_duplicate; [done..|]. by apply Hm.
  - destruct (written st + len b >=? max_chars); [done|].
    destruct Hmono as [Hm Hr]; [by right|]. constructor; [|done].
    eapply skip_duplicate; [done..|]. apply Hm. simpl. set_solver.
Qed.

Lemma for_loop_all_skippable dataset st :
  Forall (skippable lower field (seen_hashes st)) dataset ->
  for_loop lower field max_chars st dataset = (st, Exhausted).
Proof.
  induction dataset as [|example rest IH]; intros Hall; simpl; [done|].
  apply Forall_cons in Hall as [Hex Hall].
  rewrite loop_body_skip by done. by apply IH.
Qed.

(** A loop that stops on its quota has reached it. *)
Lemma for_loop_quota_reached dataset st :
  let r := for_loop lower field max_chars st dataset in
  r.2 = QuotaReached -> max_chars <= written r.1.
Proof.
  apply (for_loop_rule lower field max_chars (fun _ => True)
           (fun s ex => ex = QuotaReached -> max_chars <= written s));
    [done| |done].
  intros s example s' fl _ Hb. inversion Hb; subst; try done.
  destruct (written s + len b >=? max_chars) eqn:Hge; [|done].
  intros _. rewrite Z.geb_leb in Hge. apply Z.leb_le in Hge. simpl. lia.
Qed.


(** The counters only enter the loop through the test of the quota: a loop
    that starts with [a] bytes and [c] records behaves as one that starts
    from zero with the quota lowered by [a]. *)
Lemma loop_body_shift a c w k seen file example :
  loop_body lower field max_chars (State (w + a) (k + c) seen file) example
  = let r := loop_body lower field (max_chars - a) (State w k seen file) example in
    (State (written r.1 + a) (kept r.1 + c) (seen_hashes r.1) (file_handle r.1),
     r.2).
Proof.
  unfold loop_body. simpl.
  destruct (get example field) as [|raw]; [done|].
  destruct (bool_decide (replace_crlf (strip raw) = [])); [done|].
  destruct ((len (replace_crlf (strip raw)) <? MIN_CHARS)
            || (len (replace_crlf (strip raw)) >? MAX_CHARS)); [done|].
  destruct (hash_text (normalize lower (replace_crlf (strip raw))));
    [|done].
  destruct (bool_decide (_ ∈ seen)); [done|].
  destruct (encode (replace_crlf (strip raw))) as [b|]; [|done]. simpl.
  replace (w + a + len b >=? max_chars) with (w + len b >=? max_chars - a)
    by (rewrite !Z.geb_leb; destruct (Z.leb_spec (max_chars - a) (w + len b)),
          (Z.leb_spec max_chars (w + a + len b)); done || lia).
  destruct (w + len b >=? max_chars - a); simpl;
    do 2 f_equal; lia.
Qed.

Lemma for_loop_shift a c dataset : forall w k seen file,
  for_loop lower field max_chars (State (w + a) (k + c) seen file) dataset
  = let r := for_loop lower field (max_chars - a) (State w k seen file) dataset in
    (State (written r.1 + a) (kept r.1 + c) (seen_hashes r.1) (file_handle r.1),
     r.2).
Proof.
  induction dataset as [|example rest IH]; intros w k seen file; simpl; [done|].
  rewrite loop_body_shift. simpl.
  destruct (loop_body lower field (max_chars - a) (State w k seen file) example)
    as [[w1 k1 s1 f1] fl].
  simpl. destruct fl; try done; apply IH.
Qed.

End MoreLoopFacts.

(** ** Further properties of a call *)

(** X6.  When a call returns [(written, kept)], the file has received [kept]
    entries, [written] is the sum of the UTF-8 lengths of their texts, and
    the bytes appended to the file, newlines included, are
    [written + kept]. *)
Theorem written_counts_text_bytes
    (lower : str -> str) (dataset : list (gmap string value)) (field : string)
    (file : list str) (max_chars : Z) (seen seen' : gset str)
    (file' : list str) (w k : Z) :
  write_streaming_dataset lower dataset field file max_chars seen
  = (seen', file', Some (w, k)) ->
  exists texts,
    file' = file ++ map entry texts
    /\ Z.of_nat (length texts) = k
    /\ total_bytes texts = Some w
    /\ total_bytes (map entry texts) = Some (w + k).
Proof.
  intros Hcall.
  apply write_streaming_dataset_inv in Hcall as (ex & Hloop & Hex).
  pose proof (for_loop_accounting lower field max_chars dataset
                (State 0 0 seen file)) as Ha.
  rewrite Hloop in Ha. simpl in Ha.
  destruct (Ha Hex) as (texts & Hf & Hl & Ht).
  exists texts. replace (k - 0) with k in Hl by lia.
  replace (w - 0) with w in Ht by lia.
  repeat split; try done.
  rewrite (total_bytes_entries texts w Ht). by rewrite Hl.
Qed.

(** X7.  When a call returns [(written, kept)]: [written] lies between
    [MIN_CHARS] and four times [MAX_CHARS] for each record kept; it passes
    the quota by less than four times [MAX_CHARS]; and the records kept
    before the last one fit in the quota at [MIN_CHARS] bytes each, which
    bounds [kept]. *)
Theorem returned_counters_bounds
    (lower : str -> str) (dataset : list (gmap string value)) (field : string)
    (file : list str) (max_chars : Z) (seen seen' : gset str)
    (file' : list str) (w k : Z) :
  write_streaming_dataset lower dataset field file max_chars seen
  = (seen', file', Some (w, k)) ->
  0 <= k
  /\ MIN_CHARS * k <= w <= 4 * MAX_CHARS * k
  /\ w <= Z.max (max_chars - 1) 0 + 4 * MAX_CHARS
  /\ MIN_CHARS * (k - 1) <= Z.max (max_chars - 1) 0.
Proof.
  intros Hcall.
  apply write_streaming_dataset_inv in Hcall as (ex & Hloop & Hex).
  pose proof (for_loop_bounds lower field max_chars dataset seen file) as Hb.
  rewrite Hloop in Hb. by apply Hb.
Qed.

(** X8.  A call on a dataset in which no record passes the filters, because
    the field is missing, the text is empty once stripped or its length is
    outside the window, returns [(0, 0)] and leaves the set and the file as
    they were; so does a call on an empty dataset or with a field name that
    no record has. *)
Theorem nothing_accepted_returns_zero
    (lower : str -> str) (dataset : list (gmap string value)) (field : string)
    (file : list str) (max_chars : Z) (seen : gset str) :
  Forall (fun example => passes (get example field) = false) dataset ->
  write_streaming_dataset lower dataset field file max_chars seen
  = (seen, file, Some (0, 0)).
Proof.
  intros Hall. rewrite write_streaming_dataset_unfold.
  by rewrite for_loop_all_rejected.
Qed.

(** X9.  A pass that ended below its quota is idempotent: a second call on
    the same dataset, with the set and the file the first call left and any
    quota, writes nothing and returns [(0, 0)]. *)
Theorem completed_pass_is_idempotent
    (lower : str -> str) (dataset : list (gmap string value)) (field : string)
    (file : list str) (max_chars : Z) (seen seen' : gset str)
    (file' : list str) (w k : Z) :
  write_streaming_dataset lower dataset field file max_chars seen
  = (seen', file', Some (w, k)) ->
  w < max_chars ->
  forall max_chars',
    write_streaming_dataset lower dataset field file' max_chars' seen'
    = (seen', file', Some (0, 0)).
Proof.
  intros Hcall Hw max_chars'.
  apply write_streaming_dataset_inv in Hcall as (ex & Hloop & Hex).
  pose proof (for_loop_quota_reached lower field max_chars dataset
                (State 0 0 seen file)) as Hq.
  rewrite Hloop in Hq. simpl in Hq.
  destruct ex; [|specialize (Hq eq_refl); lia|done].
  apply for_loop_exhausted_skippable in Hloop. simpl in Hloop.
  rewrite write_streaming_dataset_unfold.
  by rewrite for_loop_all_skippable.
Qed.

(** X10.  A dataset can be cut in two: when a call on the first part ends
    below the quota, the call on the whole dataset does what a call on the
    second part does with the set and the file the first one left and with
    what is left of the quota, and returns the sums of the counters. *)
Theorem split_dataset_composes
    (lower : str -> str) (pre post : list (gmap string value)) (field : string)
    (file : list str) (max_chars : Z) (seen seen1 : gset str)
    (file1 : list str) (w1 k1 : Z) :
  write_streaming_dataset lower pre field file max_chars seen
  = (seen1, file1, Some (w1, k1)) ->
  w1 < max_chars ->
  write_streaming_dataset lower (pre ++ post) field file max_chars seen
  = match write_streaming_dataset lower post field file1 (max_chars - w1) seen1 with
    | (seen2, file2, Some (w2, k2)) => (seen2, file2, Some (w2 + w1, k2 + k1))
    | (seen2, file2, None) => (seen2, file2, None)
    end.
Proof.
  intros Hcall Hw.
  apply write_streaming_dataset_inv in Hcall as (ex & Hloop & Hex).
  pose proof (for_loop_quota_reached lower field max_chars pre
                (State 0 0 seen file)) as Hq.
  rewrite Hloop in Hq. simpl in Hq.
  destruct ex; [|specialize (Hq eq_refl); lia|done].
  rewrite !write_streaming_dataset_unfold, for_loop_app, Hloop.
  pose proof (for_loop_shift lower field max_chars w1 k1 post 0 0 seen1 file1)
    as Hs.
  rewrite !Z.add_0_l in Hs. rewrite Hs.
  destruct (for_loop lower field (max_chars - w1) (State 0 0 seen1 file1) post)
    as [[w2 k2 s2 f2] ex2].
  simpl. by destruct ex2.
Qed.

(** X11.  Whatever a call appends to the file, and however the call ends,
    each text is non-empty, has between [MIN_CHARS] and [MAX_CHARS]
    characters and has no white space at either end. *)
Theorem written_texts_in_window
    (lower : str -> str) (dataset : list (gmap string value)) (field : string)
    (file : list str) (max_chars : Z) (seen : gset str) :
  exists texts,
    (write_streaming_dataset lower dataset field file max_chars seen).1.2
    = file ++ map (fun text => text ++ [LF]) texts
    /\ Forall (fun text =>
                text <> []
                /\ MIN_CHARS <= len text <= MAX_CHARS
                /\ strip text = text) texts.
Proof.
  rewrite write_streaming_dataset_unfold. simpl.
  destruct (for_loop_entries_window lower field max_chars dataset
              (State 0 0 seen file)) as (texts & Hf & Hall).
  exists texts. split; [exact Hf|].
  eapply Forall_impl; [exact Hall|].
  intros text [Hw Hs]. apply in_window_true in Hw. tauto.
Qed.


(** ** Further properties of a run *)

Section MoreRunFacts.

Variable lower : str -> str.

Lemma write_streaming_dataset_bounds dataset field file max_chars seen
    seen' file' w k :
  write_streaming_dataset lower dataset field file max_chars seen
  = (seen', file', Some (w, k)) ->
  0 <= k
  /\ MIN_CHARS * k <= w <= 4 * MAX_CHARS * k
  /\ w <= Z.max (max_chars - 1) 0 + 4 * MAX_CHARS.
Proof.
  intros Hcall.
  apply write_streaming_dataset_inv in Hcall as (ex & Hloop & Hex).
  pose proof (for_loop_bounds lower field max_chars dataset seen file) as Hb.
  rewrite Hloop in Hb. simpl in Hb. destruct (Hb Hex) as (? & ? & ? & ?).
  done.
Qed.

Lemma write_streaming_dataset_accounting dataset field file max_chars seen
    seen' file' w k :
  write_streaming_dataset lower dataset field file max_chars seen
  = (seen', file', Some (w, k)) ->
  exists texts,
    file' = file ++ map entry texts
    /\ Z.of_nat (length texts) = k
    /\ total_bytes texts = Some w
    /\ Z.of_nat (size seen') = Z.of_nat (size seen) + k.
Proof.
  intros Hcall.
  apply write_streaming_dataset_inv in Hcall as (ex & Hloop & Hex).
  pose proof (for_loop_accounting lower field max_chars dataset
                (State 0 0 seen file)) as Ha.
  pose proof (for_loop_counts lower field max_chars dataset
                (State 0 0 seen file)) as Hc.
  rewrite Hloop in Ha, Hc. simpl in Ha, Hc.
  destruct (Ha Hex) as (texts & Hf & Hl & Ht).
  destruct (Hc Hex) as (new & _ & _ & _ & Hsz).
  exists texts. replace (k - 0) with k in * by lia.
  replace (w - 0) with w in Ht by lia. done.
Qed.

(** The totals of a run that returns count what the run appended. *)
Lemma run_accounting calls : forall seen file tw tk seen' file' w k,
  run lower calls seen file tw tk = (seen', file', Some (w, k)) ->
  exists texts,
    file' = file ++ map entry texts
    /\ Z.of_nat (length texts) = k - tk
    /\ total_bytes texts = Some (w - tw)
    /\ Z.of_nat (size seen') = Z.of_nat (size seen) + (k - tk).
Proof.
  induction calls as [|c calls IH]; intros seen file tw tk seen' file' w k Hrun;
    simpl in Hrun.
  { simplify_eq. exists []. simpl. rewrite app_nil_r.
    repeat split; [lia|f_equal; lia|lia]. }
  destruct (write_streaming_dataset lower (call_dataset c) (call_field c) file
              (call_max_chars c) seen) as [[s1 f1] [[w1 k1]|]] eqn:Hcall;
    [|done].
  apply write_streaming_dataset_accounting in Hcall
    as (texts1 & Hf1 & Hl1 & Ht1 & Hs1).
  apply IH in Hrun as (texts2 & Hf2 & Hl2 & Ht2 & Hs2).
  exists (texts1 ++ texts2).
  rewrite Hf2, Hf1, map_app, app_assoc, length_app.
  split; [done|]. split; [lia|]. split; [|lia].
  rewrite (total_bytes_app texts1 texts2 _ _ Ht1 Ht2). f_equal. lia.
Qed.

(** In a journal that deduplicates, the written texts have the written
    fingerprints, and these are new and distinct. *)
Lemma dedup_from_fingerprints seen jl :
  dedup_from lower seen jl ->
  Forall2 (fun text h => hash_text (normalize lower text) = Some h)
          (written_texts jl) (written_fingerprints lower jl)
  /\ NoDup (written_fingerprints lower jl)
  /\ (forall h, h ∈ written_fingerprints lower jl -> h ∉ seen).
Proof.
  intros Hd.
  induction Hd as [seen|seen v jl Hnot Hd IH|seen v h jl Hp Hh Hin Hd IH].
  - split; [constructor|]. split; [constructor|]. intros h Hin. inversion Hin.
  - exact IH.
  - destruct IH as (Hf & Hnd & Hnew).
    destruct v as [|raw]; [done|].
    unfold written_texts, written_fingerprints. simpl. rewrite Hh. simpl.
    split; [constructor; [exact Hh|exact Hf]|].
    split.
    + constructor; [|exact Hnd]. intros Hmem. apply Hnew in Hmem. set_solver.
    + intros h' [->|Hmem]%elem_of_cons; [done|].
      apply Hnew in Hmem. set_solver.
Qed.


End MoreRunFacts.

(** X13.  The file of a run holds no duplicate: it is made of texts whose
    fingerprints are pairwise distinct, so that no two entries have the same
    normalized text, and the set the run leaves holds exactly these
    fingerprints. *)
Theorem run_file_has_no_duplicates (lower : str -> str) (calls : list call) :
  exists texts hs,
    (run lower calls ∅ [] 0 0).1.2 = map (fun text => text ++ [LF]) texts
    /\ (run lower calls ∅ [] 0 0).1.1 = list_to_set hs
    /\ Forall2 (fun text h => hash_text (normalize lower text) = Some h)
               texts hs
    /\ NoDup hs
    /\ (forall i j t1 t2,
          texts !! i = Some t1 -> texts !! j = Some t2 ->
          normalize lower t1 = normalize lower t2 -> i = j).
Proof.
  destruct (run_journal_sound lower calls ∅ [] 0 0) as (Hd & Hs & Hf).
  destruct (dedup_from_fingerprints lower ∅ _ Hd) as (Hfp & Hnd & _).
  exists (written_texts (run_journal lower calls ∅ [])),
         (written_fingerprints lower (run_journal lower calls ∅ [])).
  split; [exact Hf|]. split; [rewrite Hs; set_solver|].
  split; [exact Hfp|]. split; [exact Hnd|].
  intros i j t1 t2 Hi Hj Hn.
  destruct (Forall2_lookup_l _ _ _ _ _ Hfp Hi) as (h1 & Hh1 & H1).
  destruct (Forall2_lookup_l _ _ _ _ _ Hfp Hj) as (h2 & Hh2 & H2).
  rewrite Hn in H1. simplify_eq.
  eapply NoDup_lookup; [exact Hnd|exact Hh1|exact Hh2].
Qed.

(** X14.  When a run returns its totals, [total_kept] has grown by the
    number of entries the run appended to the file and by the number of
    fingerprints it added to the set, and [total_written] by the UTF-8
    bytes of the appended texts, newlines not counted. *)
Theorem run_totals
    (lower : str -> str) (calls : list call) (seen seen' : gset str)
    (file file' : list str) (total_written total_kept w k : Z) :
  run lower calls seen file total_written total_kept
  = (seen', file', Some (w, k)) ->
  exists texts,
    file' = file ++ map entry texts
    /\ Z.of_nat (length texts) = k - total_kept
    /\ total_bytes texts = Some (w - total_written)
    /\ Z.of_nat (size seen') = Z.of_nat (size seen) + (k - total_kept).
Proof. apply run_accounting. Qed.

(** X15.  When [main] returns, the number it reports as kept is the number
    of entries of the file and the size of the set, and the bytes it reports
    as written are at least [MIN_CHARS] for each entry and stay below the
    target size by three, plus four times [MAX_CHARS] for each of the three
    sources. *)
Theorem main_output_bound
    (lower : str -> str) (stack_py stack_js wiki : list (gmap string value))
    (seen : gset str) (file : list str) (w k : Z) :
  main lower stack_py stack_js wiki = (seen, file, Some (w, k)) ->
  Z.of_nat (length file) = k
  /\ Z.of_nat (size seen) = k
  /\ MIN_CHARS * k <= w <= TARGET_SIZE - 3 + 12 * MAX_CHARS.
Proof.
  intros Hmain.
  pose proof (run_accounting lower _ _ _ _ _ _ _ _ _ Hmain)
    as (texts & Hf & Hl & _ & Hs).
  rewrite size_empty in Hs. simpl in Hf. subst file.
  rewrite length_map. split; [lia|]. split; [lia|].
  unfold main in Hmain. simpl in Hmain.
  destruct (write_streaming_dataset lower stack_py "content" [] QUOTA_STACK_PY ∅)
    as [[s1 f1] [[w1 k1]|]] eqn:H1; [|done].
  destruct (write_streaming_dataset lower stack_js "content" f1 QUOTA_STACK_JS s1)
    as [[s2 f2] [[w2 k2]|]] eqn:H2; [|done].
  destruct (write_streaming_dataset lower wiki "text" f2 QUOTA_WIKI s2)
    as [[s3 f3] [[w3 k3]|]] eqn:H3; [|done].
  simplify_eq.
  apply write_streaming_dataset_bounds in H1, H2, H3.
  unfold MIN_CHARS, MAX_CHARS, TARGET_SIZE, QUOTA_STACK_PY, QUOTA_STACK_JS,
    QUOTA_WIKI in *.
  lia.
Qed.


(** ** The further properties at sample inputs *)

Lemma empty_after_strip_iff_whitespace_witness :
  forallb isspace whitespace_only = true /\ clean whitespace_only = [].
Proof.
  assert (H : forallb isspace whitespace_only = true)
    by (vm_compute; reflexivity).
  split; [exact H|].
  exact (proj2 (empty_after_strip_iff_whitespace whitespace_only) H).
Defined.

Lemma hash_text_raises_iff_witness :
  hash_text lone_surrogates = None.
Proof.
  apply (proj2 (hash_text_raises_iff lone_surrogates)).
  unfold lone_surrogates. simpl. apply Exists_cons_hd. lia.
Defined.

Lemma fingerprint_is_forty_hex_digits_witness :
  len h_snippet = 40
  /\ Forall (fun c => 48 <= c <= 57 \/ 97 <= c <= 102) h_snippet.
Proof.
  apply (fingerprint_is_forty_hex_digits snippet h_snippet).
  vm_compute. reflexivity.
Defined.

Lemma accepted_record_byte_bounds_witness :
  written fresh + MIN_CHARS <= written step_snippet.1
  <= written fresh + 4 * MAX_CHARS.
Proof.
  apply (accepted_record_byte_bounds ascii_lower "content" 1000
           fresh step_snippet.1 step_snippet.2 (row "content" snippet)).
  - symmetry. apply surjective_pairing.
  - vm_compute. reflexivity.
Defined.

Lemma written_counts_text_bytes_witness :
  exists texts,
    [snippet ++ [LF]; other ++ [LF]] = [] ++ map entry texts
    /\ Z.of_nat (length texts) = 2
    /\ total_bytes texts = Some 111
    /\ total_bytes (map entry texts) = Some (111 + 2).
Proof.
  assert (Hcall :
    call_samples
    = (call_samples.1.1, [snippet ++ [LF]; other ++ [LF]], Some (111, 2)))
    by (apply result_eta; vm_compute; reflexivity).
  unfold call_samples in Hcall.
  exact (written_counts_text_bytes ascii_lower samples "content" [] 1000 ∅
           _ _ 111 2 Hcall).
Defined.

Lemma returned_counters_bounds_witness :
  0 <= 2
  /\ MIN_CHARS * 2 <= 111 <= 4 * MAX_CHARS * 2
  /\ 111 <= Z.max (1000 - 1) 0 + 4 * MAX_CHARS
  /\ MIN_CHARS * (2 - 1) <= Z.max (1000 - 1) 0.
Proof.
  assert (Hcall :
    call_samples
    = (call_samples.1.1, [snippet ++ [LF]; other ++ [LF]], Some (111, 2)))
    by (apply result_eta; vm_compute; reflexivity).
  unfold call_samples in Hcall.
  exact (returned_counters_bounds ascii_lower samples "content" [] 1000 ∅
           _ _ 111 2 Hcall).
Defined.

Lemma nothing_accepted_returns_zero_witness :
  write_streaming_dataset ascii_lower short_twice "content" [] 1000 ∅
  = (∅, [], Some (0, 0)).
Proof.
  apply nothing_accepted_returns_zero. unfold short_twice.
  constructor; [vm_compute; reflexivity|].
  constructor; [vm_compute; reflexivity|].
  constructor.
Defined.

Lemma completed_pass_is_idempotent_witness :
  write_streaming_dataset ascii_lower samples "content"
    [snippet ++ [LF]; other ++ [LF]] 5 call_samples.1.1
  = (call_samples.1.1, [snippet ++ [LF]; other ++ [LF]], Some (0, 0)).
Proof.
  assert (Hcall :
    call_samples
    = (call_samples.1.1, [snippet ++ [LF]; other ++ [LF]], Some (111, 2)))
    by (apply result_eta; vm_compute; reflexivity).
  assert (Hlt : 111 < 1000) by lia.
  unfold call_samples in Hcall at 1.
  exact (completed_pass_is_idempotent ascii_lower samples "content" [] 1000 ∅
           _ _ 111 2 Hcall Hlt 5).
Defined.

Lemma split_dataset_composes_witness :
  write_streaming_dataset ascii_lower
    ([row "content" snippet] ++ [row "content" other]) "content" [] 1000 ∅
  = (call_other_after.1.1, [snippet ++ [LF]; other ++ [LF]],
     Some (61 + 50, 1 + 1)).
Proof.
  assert (Hcall :
    call_snippet = (call_snippet.1.1, [snippet ++ [LF]], Some (50, 1)))
    by (apply result_eta; vm_compute; reflexivity).
  assert (Hlt : 50 < 1000) by lia.
  assert (Hother :
    call_other_after
    = (call_other_after.1.1, [snippet ++ [LF]; other ++ [LF]], Some (61, 1)))
    by (apply result_eta; vm_compute; reflexivity).
  unfold call_snippet in Hcall at 1.
  rewrite (split_dataset_composes ascii_lower [row "content" snippet]
             [row "content" other] "content" [] 1000 ∅ _ _ 50 1 Hcall Hlt).
  fold call_other_after. rewrite Hother. reflexivity.
Defined.


Lemma run_totals_witness :
  exists texts,
    [snippet ++ [LF]; other ++ [LF]] = [] ++ map entry texts
    /\ Z.of_nat (length texts) = 2 - 0
    /\ total_bytes texts = Some (111 - 0)
    /\ Z.of_nat (size run_two_calls.1.1)
       = Z.of_nat (size (∅ : gset str)) + (2 - 0).
Proof.
  assert (Hrun :
    run_two_calls
    = (run_two_calls.1.1, [snippet ++ [LF]; other ++ [LF]], Some (111, 2)))
    by (apply result_eta; vm_compute; reflexivity).
  unfold run_two_calls in Hrun at 1.
  exact (run_totals ascii_lower two_calls ∅ _ [] _ 0 0 111 2 Hrun).
Defined.

Lemma main_output_bound_witness :
  Z.of_nat (length [snippet ++ [LF]; other ++ [LF]]) = 2
  /\ Z.of_nat (size main_samples.1.1) = 2
  /\ MIN_CHARS * 2 <= 111 <= TARGET_SIZE - 3 + 12 * MAX_CHARS.
Proof.
  assert (Hmain :
    main_samples
    = (main_samples.1.1, [snippet ++ [LF]; other ++ [LF]], Some (111, 2)))
    by (apply result_eta; vm_compute; reflexivity).
  unfold main_samples in Hmain at 1.
  exact (main_output_bound ascii_lower samples [] [] _ _ 111 2 Hmain).
Defined.
